(** * dynamodb-copy: a shallow embedding of [cli/cli.py]

    The command line tool copies every item of one DynamoDB table into
    another one.  This development embeds the six functions of
    [cli/cli.py] and proves the properties the specification states
    about them.

    - Text is [string]; a character is an [ascii], read as the code
      point of the same number (the range U+0000..U+00FF).
    - The services the program talks to (STS, DynamoDB, through boto3)
      are objects whose methods act on a state [W] of the remote side;
      the program is written in a small state and exit monad over the
      console, the request log and [W].
    - Python's unbounded [while] loops take fuel; running out of it is
      the outcome [OutOfFuel], never a result. *)

From Stdlib Require Import Ascii String ZArith.
From stdpp Require Import gmap strings list pretty.

(** ** Strings *)

Definition chars (s : string) : list ascii := list_ascii_of_string s.
Definition text (l : list ascii) : string := string_of_list_ascii l.

Definition code (c : ascii) : N := N_of_ascii c.
Definition between (lo hi : N) (c : ascii) : bool :=
  ((lo <=? code c) && (code c <=? hi))%N.

Definition newline : ascii := ascii_of_N 10.
Definition nl : string := String newline EmptyString.
Definition carriage_return : ascii := ascii_of_N 13.

(** ** The regular expressions of [re], as far as the program uses them

    A pattern is a sequence of nodes; [Plus] is the greedy [+] on a
    single-character atom, [GroupOpen]/[GroupClose] are the parentheses of
    the one capturing group, [Bol] is [^] and [Eol] is [$] (without
    [re.MULTILINE]: at the end of the text, or just before a newline that
    ends the text). *)
Module Re.

Inductive atom :=
  | Lit (c : ascii)
  | Class (p : ascii → bool).

Inductive node :=
  | One (a : atom)
  | Plus (a : atom)
  | GroupOpen
  | GroupClose
  | Bol
  | Eol.

Definition accepts (a : atom) (c : ascii) : bool :=
  match a with
  | Lit c' => bool_decide (c = c')
  | Class p => p c
  end.

(** The marks of the capturing group: where it opened and where it closed,
    as offsets into the text. *)
Definition marks : Type := option nat * option nat.

(** [exec ns n s mk]: match the nodes [ns] against the rest [s] of the
    text, [n] characters of which are already consumed.  This is the
    backtracking search of [re]: [Plus] first tries to take one more
    character and falls back to the rest of the pattern. *)
Fixpoint exec (ns : list node) : nat → list ascii → marks → option marks :=
  match ns with
  | [] => λ _ _ mk, Some mk
  | One a :: ns' => λ n s mk,
      match s with
      | c :: s' => if accepts a c then exec ns' (S n) s' mk else None
      | [] => None
      end
  | Plus a :: ns' =>
      fix plus (n : nat) (s : list ascii) (mk : marks) : option marks :=
        match s with
        | c :: s' =>
            if accepts a c then
              match plus (S n) s' mk with
              | Some r => Some r
              | None => exec ns' (S n) s' mk
              end
            else None
        | [] => None
        end
  | GroupOpen :: ns' => λ n s mk, exec ns' n s (Some n, mk.2)
  | GroupClose :: ns' => λ n s mk, exec ns' n s (mk.1, Some n)
  | Bol :: ns' => λ n s mk,
      match n with
      | O => exec ns' n s mk
      | S _ => None
      end
  | Eol :: ns' => λ n s mk,
      match s with
      | [] => exec ns' n s mk
      | [c] => if bool_decide (c = newline) then exec ns' n s mk else None
      | _ => None
      end
  end.

(** [re.match(pattern, s)] followed by [.group(1)]: [None] when the
    pattern does not match at the start of [s]. *)
Definition match_group1 (pattern : list node) (s : string) : option string :=
  match exec pattern 0 (chars s) (None, None) with
  | Some (Some i, Some j) => Some (text (take (j - i) (drop i (chars s))))
  | _ => None
  end.

End Re.

(** ** The character classes [\s] and [\w] of a [str] pattern

    Python's tables on the code points below 256: [\s] is [str.isspace],
    [\w] is [str.isalnum] or the underscore. *)
Definition is_space (c : ascii) : bool :=
  between 9 13 c || between 28 32 c
  || bool_decide (code c = 133%N) || bool_decide (code c = 160%N).

Definition is_word (c : ascii) : bool :=
  between 48 57 c || between 65 90 c || between 97 122 c
  || bool_decide (code c = 95%N)
  || bool_decide (code c = 170%N) || bool_decide (code c = 181%N)
  || bool_decide (code c = 186%N)
  || between 178 179 c || bool_decide (code c = 185%N) || between 188 190 c
  || between 192 214 c || between 216 246 c || between 248 255 c.

Definition is_hyphen (c : ascii) : bool := bool_decide (c = "-"%char).

(** The class [[\s\w\-]]. *)
Definition profile_char (c : ascii) : bool :=
  is_space c || is_word c || is_hyphen c.

(** The pattern [r'^\[([\s\w\-]+)\]$']. *)
Definition profile_pattern : list Re.node :=
  [Re.Bol; Re.One (Re.Lit "["%char); Re.GroupOpen;
   Re.Plus (Re.Class profile_char); Re.GroupClose;
   Re.One (Re.Lit "]"%char); Re.Eol].

(** ** Outcomes of a Python computation *)

(** The exceptions the program meets. [ClientError code] is botocore's
    [ClientError] with [e.response['Error']['Code'] = code]; boto3's
    [ResourceNotFoundException] is the [ClientError] of that code. *)
Inductive Exn :=
  | ClientError (code : string)
  | EndpointConnectionError
  | FileNotFoundError
  | OtherException (name : string).

Inductive Outcome (A : Type) :=
  | Return (a : A)
  | SysExit (status : Z)
  | Raise (e : Exn)
  | OutOfFuel.
Arguments Return {A} a.
Arguments SysExit {A} status.
Arguments Raise {A} e.
Arguments OutOfFuel {A}.

(** ** [get_profile_names] *)

(** [open(path)] in text mode, as [f] hands the file out: with the
    default [newline=None] every line end of the file, [\r\n], [\r] or
    [\n], reaches the program as [\n]. *)
Fixpoint open_text (s : string) : string :=
  match s with
  | EmptyString => EmptyString
  | String c s' =>
      if bool_decide (c = carriage_return) then
        String newline
          match s' with
          | String d s'' =>
              if bool_decide (d = newline) then open_text s'' else open_text s'
          | EmptyString => EmptyString
          end
      else String c (open_text s')
  end.

(** [f.readlines()]: the lines of a text, each with its newline. *)
Fixpoint readlines (s : string) : list string :=
  match s with
  | EmptyString => []
  | String c s' =>
      if bool_decide (c = newline) then nl :: readlines s'
      else match readlines s' with
           | [] => [String c EmptyString]
           | l :: ls => String c l :: ls
           end
  end.

(** The body of the [for line in lines] loop. *)
Definition profile_names_of_lines (lines : list string) : list string :=
  omap (Re.match_group1 profile_pattern) lines.

(** The body of the [with open(credentials_path) as f] block, on the
    characters of the file. *)
Definition profile_names_of_file (content : string) : list string :=
  profile_names_of_lines (readlines (open_text content)).

(** The credentials file: [~/.aws/credentials] under the home directory,
    or the path in [AWS_SHARED_CREDENTIALS_FILE]. *)
Definition credentials_path (home : string) (environ : gmap string string) : string :=
  match environ !! "AWS_SHARED_CREDENTIALS_FILE" with
  | Some p => p
  | None => home +:+ "/.aws/credentials"
  end.

(** [fs] maps a path to the characters of the file there. *)
Definition get_profile_names (home : string) (environ fs : gmap string string)
    : Outcome (list string) :=
  match fs !! credentials_path home environ with
  | None => Raise FileNotFoundError
  | Some content => Return (profile_names_of_file content)
  end.

(** [click.Choice(choices)] applied to a value: the value itself when it
    is one of the choices, otherwise the parameter is refused. *)
Definition click_choice (choices : list string) (value : string) : option string :=
  if bool_decide (value ∈ choices) then Some value else None.

(** ** The number format [{n:,}] of an f-string *)

Fixpoint commas_rev (l : list ascii) (k : nat) : list ascii :=
  match l with
  | [] => []
  | c :: l' =>
      match k with
      | O => ","%char :: c :: commas_rev l' 2
      | S k' => c :: commas_rev l' k'
      end
  end.

Definition format_thousands (n : nat) : string :=
  text (reverse (commas_rev (reverse (chars (pretty n))) 3)).

(** ** The remote services, as boto3 hands them to the program *)

Inductive Result (A : Type) :=
  | Success (a : A)
  | Failure (e : Exn).
Arguments Success {A} a.
Arguments Failure {A} e.

Section Program.
(** [W] is the state of the remote side, [Item] what a table stores and
    [Cursor] the value of [LastEvaluatedKey]; the program inspects none
    of them. *)
Context {W Item Cursor : Type}.

(** The response of [Table.scan]: [LastEvaluatedKey] is [None] when the
    key is absent from the response. *)
Record ScanResponse := {
  Items : list Item;
  Count : nat;
  LastEvaluatedKey : option Cursor;
}.

(** A boto3 [Table] resource.  [flush_amount] is the number of put
    requests its batch writer sends in one [batch_write_item]; that call
    answers with the items the service left unprocessed. *)
Record TableResource := {
  table_name : string;
  load : W → Result unit * W;
  scan : option Cursor → W → Result ScanResponse * W;
  flush_amount : nat;
  batch_write_item : list Item → W → Result (list Item) * W;
}.

(** What [boto3.Session(profile_name, region_name)] gives access to:
    [get_caller_identity profile region] is the call of the STS client
    and answers with the account, [Table name profile region] the table
    resource (made without a request). *)
Record Boto3 := {
  get_caller_identity : string → string → W → Result string * W;
  Table : string → string → string → TableResource;
}.

(** ** The state of a run *)

Inductive Request :=
  | GetCallerIdentity (profile region : string)
  | Load (name : string)
  | Scan (name : string) (start : option Cursor)
  | BatchWriteItem (name : string) (batch : list Item).

(** What the operator sees: a printed line, or the progress counter
    drawn again with its message and index, or its final newline. *)
Inductive Output :=
  | Echo (line : string)
  | Bar (message : string) (index : nat)
  | BarFinish.

Record State := {
  remote : W;
  console : list Output;
  requests : list Request;
}.

Definition M (A : Type) : Type := State → Outcome A * State.

Definition ret {A} (a : A) : M A := λ st, (Return a, st).

Definition bind {A B} (m : M A) (k : A → M B) : M B := λ st,
  match m st with
  | (Return a, st') => k a st'
  | (SysExit c, st') => (SysExit c, st')
  | (Raise e, st') => (Raise e, st')
  | (OutOfFuel, st') => (OutOfFuel, st')
  end.

Definition exit {A} (status : Z) : M A := λ st, (SysExit status, st).
Definition raise {A} (e : Exn) : M A := λ st, (Raise e, st).
Definition out_of_fuel {A} : M A := λ st, (OutOfFuel, st).

Definition emit (o : Output) : M unit := λ st,
  (Return tt,
   {| remote := remote st; console := console st ++ [o];
      requests := requests st |}).

(** [print(s)] and [click.echo(s)]. *)
Definition print (s : string) : M unit := emit (Echo s).

(** A request: it is logged, the remote side answers and moves on; a
    failure is the exception that boto3 raises. *)
Definition call {A} (rq : Request) (method : W → Result A * W) : M A := λ st,
  let '(r, w) := method (remote st) in
  let st' := {| remote := w; console := console st;
                requests := requests st ++ [rq] |} in
  match r with
  | Success a => (Return a, st')
  | Failure e => (Raise e, st')
  end.

(** What the exit of a [with] block does: [cleanup] runs after [m]
    however [m] ended. *)
Definition finally {A} (m : M A) (cleanup : M unit) : M A := λ st,
  match m st with
  | (OutOfFuel, st') => (OutOfFuel, st')
  | (o, st') =>
      match cleanup st' with
      | (Return _, st'') => (o, st'')
      | (SysExit c, st'') => (SysExit c, st'')
      | (Raise e, st'') => (Raise e, st'')
      | (OutOfFuel, st'') => (OutOfFuel, st'')
      end
  end.

Notation "'let*' x := m 'in' k" := (bind m (λ x, k))
  (at level 10, x name, m at level 100, k at level 200,
   format "'[v' 'let*'  x  :=  m  'in'  '/' k ']'").
Notation "m ;;; k" := (bind m (λ _, k))
  (at level 100, right associativity).

(** ** [progress.counter.Counter] *)

Record Counter := { message : string; index : nat }.

Definition bar_next (bar : Counter) (n : nat) : M Counter :=
  let bar' := {| message := message bar; index := index bar + n |} in
  emit (Bar (message bar') (index bar')) ;;; ret bar'.

Definition bar_finish (bar : Counter) : M unit := emit BarFinish.

(** [with Counter(msg) as bar: body]: the counter starts at 0 and is
    finished when the block is left. *)
Definition with_counter {A} (msg : string) (body : Counter → M A) : M A :=
  finally (body {| message := msg; index := 0 |}) (emit BarFinish).

(** ** [validate_aws_credentials] *)

Definition token_error_msg : string := "ERROR: Security token issue: ".

Definition validate_aws_credentials (boto3 : Boto3) (profile_name region_name : string)
    : M (option string) := λ st,
  match call (GetCallerIdentity profile_name region_name)
             (get_caller_identity boto3 profile_name region_name) st with
  | (Return account, st') => (Return (Some account), st')
  | (Raise (ClientError code), st') =>
      if bool_decide (code = "ExpiredToken") then
        (print (token_error_msg +:+ " Credentials for profile '" +:+ profile_name
                +:+ "' are expired.") ;;;
         exit 1) st'
      else if bool_decide (code = "InvalidClientTokenId") then
        (print (token_error_msg +:+ " Credentials for profile '" +:+ profile_name
                +:+ "' are invalid or do not have access to " +:+ "region '"
                +:+ region_name +:+ "'.") ;;;
         exit 1) st'
      else (Return None, st')
  | (Raise EndpointConnectionError, st') =>
      (print ("ERROR Invalid Region: The region '" +:+ region_name
              +:+ "' does not appear to be a valid AWS region.") ;;;
       exit 1) st'
  | (o, st') => (match o with
                 | Return a => Return (Some a)
                 | SysExit c => SysExit c
                 | Raise e => Raise e
                 | OutOfFuel => OutOfFuel
                 end, st')
  end.

(** ** [get_dynamodb_table] *)

Definition get_dynamodb_table (boto3 : Boto3) (name profile_name region_name : string)
    : M TableResource := λ st,
  let table := Table boto3 name profile_name region_name in
  match call (Load (table_name table)) (load table) st with
  | (Return _, st') => (Return table, st')
  | (Raise (ClientError code), st') =>
      if bool_decide (code = "ResourceNotFoundException") then
        (print ("ERROR: count not find the table named '" +:+ name +:+ "'") ;;;
         exit 1) st'
      else (Raise (ClientError code), st')
  | (SysExit c, st') => (SysExit c, st')
  | (Raise e, st') => (Raise e, st')
  | (OutOfFuel, st') => (OutOfFuel, st')
  end.

(** ** [get_dynamodb_items] *)

(** The [while last_evaluated_key is not None] loop; one unit of fuel
    per turn. *)
Fixpoint scan_loop (fuel : nat) (table : TableResource) (items : list Item)
    (last_evaluated_key : option Cursor) (bar : Counter) : M (list Item * Counter) :=
  match last_evaluated_key with
  | None => ret (items, bar)
  | Some key =>
      match fuel with
      | O => out_of_fuel
      | S fuel' =>
          let* resp := call (Scan (table_name table) (Some key)) (scan table (Some key)) in
          let* bar' := bar_next bar (Count resp) in
          scan_loop fuel' table (items ++ Items resp) (LastEvaluatedKey resp) bar'
      end
  end.

Definition get_dynamodb_items (fuel : nat) (table : TableResource) : M (list Item) :=
  let progress_msg := "Downloading items from " +:+ table_name table +:+ ": " in
  with_counter progress_msg (λ bar,
    let* resp := call (Scan (table_name table) None) (scan table None) in
    let* bar := bar_next bar (Count resp) in
    let* r := scan_loop fuel table ([] ++ Items resp) (LastEvaluatedKey resp) bar in
    bar_finish r.2 ;;;
    ret r.1).

(** ** The batch writer of a table

    Modelled from the spec: the batch-write primitive ([batch_writer] of
    boto3, which is not part of the repository).  It buffers the items
    handed to it, submits them in batches of at most [flush_amount]
    items, presents again the items the store left unprocessed, and
    sends what is left when the [with] block ends; a failed submission
    is fatal and nothing more is sent. *)

Definition flush (table : TableResource) (items_buffer : list Item) : M (list Item) :=
  let items_to_send := take (flush_amount table) items_buffer in
  let items_buffer := drop (flush_amount table) items_buffer in
  let* unprocessed := call (BatchWriteItem (table_name table) items_to_send)
                           (batch_write_item table items_to_send) in
  ret (items_buffer ++ unprocessed).

Definition put_item (table : TableResource) (items_buffer : list Item) (item : Item)
    : M (list Item) :=
  let items_buffer := items_buffer ++ [item] in
  if bool_decide (flush_amount table ≤ length items_buffer)
  then flush table items_buffer
  else ret items_buffer.

(** The [while self._items_buffer: self._flush()] of the exit. *)
Fixpoint flush_all (fuel : nat) (table : TableResource) (items_buffer : list Item)
    : M unit :=
  match items_buffer with
  | [] => ret tt
  | _ :: _ =>
      match fuel with
      | O => out_of_fuel
      | S fuel' =>
          let* items_buffer' := flush table items_buffer in
          flush_all fuel' table items_buffer'
      end
  end.

Definition with_batch_writer (fuel : nat) (table : TableResource)
    (body : list Item → M (list Item)) : M unit :=
  let* items_buffer := body [] in
  flush_all fuel table items_buffer.

(** ** [write_items_to_dyanmodb_table] *)

(** The [for item in items] loop. *)
Fixpoint put_loop (table : TableResource) (items : list Item)
    (batch : list Item) (bar : Counter) : M (list Item * Counter) :=
  match items with
  | [] => ret (batch, bar)
  | item :: items' =>
      let* batch' := put_item table batch item in
      let* bar' := bar_next bar 1 in
      put_loop table items' batch' bar'
  end.

Definition write_items_to_dyanmodb_table (fuel : nat) (items : list Item)
    (table : TableResource) : M unit :=
  let item_count := length items in
  with_batch_writer fuel table (λ batch,
    let progress_msg := "Writing " +:+ format_thousands item_count +:+ " items to "
                        +:+ table_name table +:+ ": " in
    let* r := with_counter progress_msg (λ bar, put_loop table items batch bar) in
    bar_finish r.2 ;;;
    ret r.1).

(** ** [run] *)

Definition run (fuel : nat) (boto3 : Boto3)
    (src_table_name src_profile src_region
     dest_table_name dest_profile dest_region : string) : M unit :=
  print ("src_table = " +:+ src_table_name) ;;;
  print ("src_profile = " +:+ src_profile) ;;;
  print ("src_region = " +:+ src_region) ;;;
  print ("dest_table = " +:+ dest_table_name) ;;;
  print ("dest_profile = " +:+ dest_profile) ;;;
  print ("dest_region = " +:+ dest_region) ;;;
  validate_aws_credentials boto3 src_profile src_region ;;;
  validate_aws_credentials boto3 dest_profile dest_region ;;;
  let* src_table := get_dynamodb_table boto3 src_table_name src_profile src_region in
  let* dest_table := get_dynamodb_table boto3 dest_table_name dest_profile dest_region in
  let* src_items := get_dynamodb_items fuel src_table in
  write_items_to_dyanmodb_table fuel src_items dest_table.

End Program.

Arguments ScanResponse : clear implicits.
Arguments TableResource : clear implicits.
Arguments Boto3 : clear implicits.
Arguments Request : clear implicits.
Arguments State : clear implicits.
Arguments M : clear implicits.

(** ** The specification's reading of the lines of a file

    A line ends with [\n], with [\r\n] or with [\r], and is read with
    [\n] for its end; the last line of a file may have no end.  One pass
    over the characters of the file. *)
Fixpoint file_lines (s : string) : list string :=
  match s with
  | EmptyString => []
  | String c s' =>
      if bool_decide (c = carriage_return) then
        nl :: match s' with
              | String d s'' =>
                  if bool_decide (d = newline) then file_lines s'' else file_lines s'
              | EmptyString => []
              end
      else if bool_decide (c = newline) then nl :: file_lines s'
      else match file_lines s' with
           | [] => [String c EmptyString]
           | l :: ls => String c l :: ls
           end
  end.

(** A line as it is read: characters that end no line, and then [\n] or,
    for the last line of a file only, nothing. *)
Definition is_line (l : string) : Prop :=
  ∃ body, (l = body ∨ l = body +:+ nl)
          ∧ l ≠ EmptyString
          ∧ Forall (λ c, c ≠ newline ∧ c ≠ carriage_return) (chars body).

(** ** The specification's reading of the profile list

    A section header is a line that consists of [[], a name and []],
    with or without the newline that ends the line; the profile names are
    the names of the headers whose name is not empty and has only
    whitespace, word characters and hyphens. *)
Definition strip_newline (l : list ascii) : list ascii :=
  match reverse l with
  | c :: r => if bool_decide (c = newline) then reverse r else l
  | [] => l
  end.

(** The name between [[] and []], when it is a profile name. *)
Definition bracketed (l : list ascii) : option string :=
  match l with
  | c :: body =>
      if bool_decide (c = "["%char) then
        match reverse body with
        | d :: rname =>
            if bool_decide (d = "]"%char) && bool_decide (rname ≠ [])
               && forallb profile_char rname
            then Some (text (reverse rname))
            else None
        | [] => None
        end
      else None
  | [] => None
  end.

Definition header_name (line : string) : option string :=
  bracketed (strip_newline (chars line)).

(** [line] is the header of the profile [name]. *)
Definition is_header (line name : string) : Prop :=
  ∃ suffix, (suffix = [] ∨ suffix = [newline])
            ∧ chars line = "["%char :: chars name ++ "]"%char :: suffix
            ∧ chars name ≠ []
            ∧ Forall (λ c, profile_char c = true) (chars name).

(** What follows the name in the profile pattern. *)
Definition profile_tail : list Re.node :=
  [Re.GroupClose; Re.One (Re.Lit "]"%char); Re.Eol].

(** ** What a run leaves in the request log and on the console *)

Section Observations.
Context {W Item Cursor : Type}.
Abbreviation ScanResponse := (ScanResponse Item Cursor).
Abbreviation TableResource := (TableResource W Item Cursor).
Abbreviation Request := (Request Item Cursor).

Definition is_scan (rq : Request) : bool :=
  match rq with Scan _ _ => true | _ => false end.
Definition is_write (rq : Request) : bool :=
  match rq with BatchWriteItem _ _ => true | _ => false end.

(** The batches submitted in a log, in order. *)
Definition batches_of (log : list Request) : list (list Item) :=
  omap (λ rq, match rq with BatchWriteItem _ b => Some b | _ => None end) log.

Definition has_cursor (r : ScanResponse) : bool :=
  match LastEvaluatedKey r with Some _ => true | None => false end.

(** The scan requests that fetch the responses [rs] one after the other,
    the first one from [start], each later one from the cursor of the
    response before. *)
Fixpoint chain_requests (name : string) (start : option Cursor)
    (rs : list ScanResponse) : list Request :=
  match rs with
  | [] => []
  | r :: rs' => Scan name start :: chain_requests name (LastEvaluatedKey r) rs'
  end.

(** The counter drawn after each of the responses [rs]. *)
Fixpoint chain_bars (msg : string) (idx : nat) (rs : list ScanResponse)
    : list Output :=
  match rs with
  | [] => []
  | r :: rs' => Bar msg (idx + Count r) :: chain_bars msg (idx + Count r) rs'
  end.

(** The index of the counter after the responses [rs]. *)
Definition chain_index (idx : nat) (rs : list ScanResponse) : nat :=
  foldl (λ i r, i + Count r) idx rs.

(** The state after more has been written to the console and sent to the
    remote side, which is then in the state [w]. *)
Definition advance (st : State W Item Cursor) (w : W) (out : list Output)
    (log : list Request) : State W Item Cursor :=
  {| remote := w; console := console st ++ out; requests := requests st ++ log |}.

(** The message of the reader's counter. *)
Definition download_msg (t : TableResource) : string :=
  "Downloading items from " +:+ table_name t +:+ ": ".

(** Between the states [st] and [st'] the program has sent the batches
    [bs] to the table [t], and nothing else to anyone. *)
Definition sends (t : TableResource) (st st' : State W Item Cursor)
    (bs : list (list Item)) : Prop :=
  requests st' = requests st ++ (BatchWriteItem (table_name t) <$> bs).

(** [accepted t w bs w']: sent one after the other from the state [w],
    the batches [bs] are all accepted by the table [t], which is then in
    the state [w']. *)
Inductive accepted (t : TableResource) : W → list (list Item) → W → Prop :=
  | accepted_nil w : accepted t w [] w
  | accepted_cons w b unprocessed w' bs w'' :
      batch_write_item t b w = (Success unprocessed, w') →
      accepted t w' bs w'' →
      accepted t w (b :: bs) w''.

(** How a part of the writer that ends with [x] has dealt with the table
    between the states [st] and [st']: it has sent batches only, all of
    them accepted, but for the last one when [x] is an exception, which is
    then the table's answer to that batch; and it does not exit. *)
Definition written {A} (t : TableResource) (st st' : State W Item Cursor)
    (x : Outcome A) : Prop :=
  match x with
  | Return _ | OutOfFuel =>
      ∃ bs, sends t st st' bs ∧ accepted t (remote st) bs (remote st')
  | Raise e =>
      ∃ bs b w1,
        requests st' = requests st ++ (BatchWriteItem (table_name t) <$> bs ++ [b])
        ∧ accepted t (remote st) bs w1
        ∧ batch_write_item t b w1 = (Failure e, remote st')
  | SysExit _ => False
  end.

(** [scan_chain t start w rs w']: asked from [start] in the state [w], and
    then from each cursor it hands out, the table answers with the
    responses [rs], the last of which is the only one without a cursor,
    and is left in the state [w']. *)
Inductive scan_chain (t : TableResource)
    : option Cursor → W → list ScanResponse → W → Prop :=
  | scan_chain_last start w r w' :
      scan t start w = (Success r, w') →
      LastEvaluatedKey r = None →
      scan_chain t start w [r] w'
  | scan_chain_more start w r w' key rs w'' :
      scan t start w = (Success r, w') →
      LastEvaluatedKey r = Some key →
      scan_chain t (Some key) w' rs w'' →
      scan_chain t start w (r :: rs) w''.

End Observations.

(** A table that answers its scans from a script of responses, one per
    request and whatever the cursor asked for; the state of the remote
    side is what is left of the script. *)
Definition scripted_table {Item Cursor : Type} (name : string)
    : TableResource (list (ScanResponse Item Cursor)) Item Cursor :=
  {| table_name := name;
     load := λ w, (Success tt, w);
     scan := λ _ w,
       match w with
       | r :: w' => (Success r, w')
       | [] => (Failure (OtherException "script exhausted"), [])
       end;
     flush_amount := 25;
     batch_write_item := λ _ w, (Success [], w) |}.

(** ** The backing store

    Modelled from the spec: the managed database behind boto3, which is
    not part of the repository.  A table is a finite map from keys to
    items; it is found under the table name, the profile and the region it
    is asked for with.  A scan walks the items in the order of the store,
    at most [page_limit] of them per response, and hands out the key of the
    last item of a page as the cursor whenever items are left.  A batch
    write puts each item under its key, over whatever was there (an upsert),
    and leaves nothing unprocessed. *)
Section Store.
Context `{Countable Key} {Item : Type} (key_of : Item → Key).

Definition TableId : Type := string * string * string.

Abbreviation Tables := (gmap TableId (gmap Key Item)).

Record Service := {
  caller_identity : string → string → Result string;
  page_limit : nat;
  batch_limit : nat;
}.

Definition not_found : Exn := ClientError "ResourceNotFoundException".

Definition scan_order (content : gmap Key Item) : list Item :=
  (map_to_list content).*2.

(** The items that come after the item of key [k]. *)
Fixpoint after_key (k : Key) (items : list Item) : list Item :=
  match items with
  | [] => []
  | item :: items' =>
      if bool_decide (key_of item = k) then items' else after_key k items'
  end.

(** Where a scan from [start] takes up the items. *)
Definition resume (items : list Item) (start : option Key) : list Item :=
  match start with
  | None => items
  | Some k => after_key k items
  end.

Definition scan_page (limit : nat) (items : list Item) (start : option Key)
    : ScanResponse Item Key :=
  let rest := resume items start in
  let page := take limit rest in
  {| Items := page;
     Count := length page;
     LastEvaluatedKey := match drop limit rest with
                         | [] => None
                         | _ :: _ => key_of <$> last page
                         end |}.

Definition upsert (content : gmap Key Item) (item : Item) : gmap Key Item :=
  <[key_of item := item]> content.

Definition dynamodb_table (svc : Service) (name profile region : string)
    : TableResource Tables Item Key :=
  let id : TableId := (name, profile, region) in
  {| table_name := name;
     load := λ w,
       match w !! id with
       | Some _ => (Success tt, w)
       | None => (Failure not_found, w)
       end;
     scan := λ start w,
       match w !! id with
       | Some content =>
           (Success (scan_page (page_limit svc) (scan_order content) start), w)
       | None => (Failure not_found, w)
       end;
     flush_amount := batch_limit svc;
     batch_write_item := λ batch w,
       match w !! id with
       | Some content => (Success [], <[id := foldl upsert content batch]> w)
       | None => (Failure not_found, w)
       end |}.

Definition dynamodb (svc : Service) : Boto3 Tables Item Key :=
  {| get_caller_identity := λ profile region w, (caller_identity svc profile region, w);
     Table := dynamodb_table svc |}.

(** The last item of key [k] in a sequence of items. *)
Fixpoint latest (k : Key) (items : list Item) : option Item :=
  match items with
  | [] => None
  | item :: items' =>
      match latest k items' with
      | Some item' => Some item'
      | None => if bool_decide (key_of item = k) then Some item else None
      end
  end.

(** The items of a table are filed under their own keys. *)
Definition well_keyed (content : gmap Key Item) : Prop :=
  ∀ k item, content !! k = Some item → key_of item = k.
End Store.

(** [ceil(a / b)]. *)
Definition ceil_div (a b : nat) : nat := (a + b - 1) / b.

(** The status the process ends with: that of [exit], 1 for an exception
    that nothing catches, 0 otherwise. *)
Definition exit_status {A} (o : Outcome A) : option Z :=
  match o with
  | Return _ => Some 0%Z
  | SysExit c => Some c
  | Raise _ => Some 1%Z
  | OutOfFuel => None
  end.

(** ** Sample inputs *)

(** A credentials file. *)
Definition credentials_example : string :=
  "[profile_1]" +:+ String carriage_return nl +:+ "aws_access_key_id = AKIA" +:+ nl
  +:+ "[profile 4]" +:+ String carriage_return "[my.profile]" +:+ nl +:+ "[profile-3]".

(** A scan that comes in two pages, and the state of a run that is about
    to read it. *)
Definition two_pages : list (ScanResponse nat nat) :=
  [ {| Items := [1; 2]; Count := 2; LastEvaluatedKey := Some 2 |};
    {| Items := [3]; Count := 1; LastEvaluatedKey := None |};
    {| Items := [4]; Count := 1; LastEvaluatedKey := None |} ].

Definition start_with {W Item Cursor} (w : W) : State W Item Cursor :=
  {| remote := w; console := []; requests := [] |}.

(** The tables of the test suite: items are an [id] and a [data] string,
    filed under the [id]. *)
Definition test_item (i : string) : string * string :=
  ("A" +:+ i +:+ "00", "Data for item with ID A" +:+ i +:+ "00").

Definition test_service : Service :=
  {| caller_identity := λ _ _, Success "123456789012";
     page_limit := 2;
     batch_limit := 2 |}.

Definition src_id : TableId := ("TEST_SOURCE", "default", "us-east-1").
Definition dest_id : TableId := ("TEST_DESTINATION", "default", "us-east-1").

Definition test_tables : gmap TableId (gmap string (string * string)) :=
  {[ src_id := foldl (upsert fst) ∅ [test_item "1"; test_item "2"; test_item "3"];
     dest_id := ∅ ]}.

Definition test_dest : TableResource (gmap TableId (gmap string (string * string)))
                                     (string * string) string :=
  dynamodb_table fst test_service "TEST_DESTINATION" "default" "us-east-1".

Definition test_src : TableResource (gmap TableId (gmap string (string * string)))
                                    (string * string) string :=
  dynamodb_table fst test_service "TEST_SOURCE" "default" "us-east-1".

Definition three_items : list (string * string) :=
  [test_item "1"; test_item "2"; test_item "3"].

(** A service whose STS refuses the caller: [get_caller_identity] fails
    with the [ClientError] of code [AccessDenied]. *)
Definition denied_service : Service :=
  {| caller_identity := λ _ _, Failure (ClientError "AccessDenied");
     page_limit := 2;
     batch_limit := 2 |}.

Definition copy_test_tables (svc : Service)
    : M (gmap TableId (gmap string (string * string))) (string * string) string unit :=
  run 3 (dynamodb fst svc)
    "TEST_SOURCE" "default" "us-east-1" "TEST_DESTINATION" "default" "us-east-1".

(** The answers of STS on which [validate_aws_credentials] returns to its
    caller. *)
Definition validation_returns (r : Result string) : bool :=
  match r with
  | Success _ => true
  | Failure (ClientError code) =>
      negb (bool_decide (code = "ExpiredToken"))
      && negb (bool_decide (code = "InvalidClientTokenId"))
  | Failure _ => false
  end.

(** ** Scans that fail *)

Section Breaks.
Context {W Item Cursor : Type}.

(** The cursor that the responses [rs], fetched from [start], end with. *)
Fixpoint chain_end (start : option Cursor) (rs : list (ScanResponse Item Cursor))
    : option Cursor :=
  match rs with
  | [] => start
  | r :: rs' => chain_end (LastEvaluatedKey r) rs'
  end.

(** [scan_breaks t start w rs e w']: asked from [start] in the state [w],
    the table answers with the responses [rs], each with a cursor, and then
    fails with [e], which leaves it in the state [w']. *)
Inductive scan_breaks (t : TableResource W Item Cursor)
    : option Cursor → W → list (ScanResponse Item Cursor) → Exn → W → Prop :=
  | scan_breaks_now start w e w' :
      scan t start w = (Failure e, w') →
      scan_breaks t start w [] e w'
  | scan_breaks_later start w r w' key rs e w'' :
      scan t start w = (Success r, w') →
      LastEvaluatedKey r = Some key →
      scan_breaks t (Some key) w' rs e w'' →
      scan_breaks t start w (r :: rs) e w''.

End Breaks.

(** A table whose scans always come with a cursor. *)
Definition endless_table : TableResource unit nat nat :=
  {| table_name := "ENDLESS";
     load := λ w, (Success tt, w);
     scan := λ _ w, (Success {| Items := [7]; Count := 1; LastEvaluatedKey := Some 7 |}, w);
     flush_amount := 25;
     batch_write_item := λ _ w, (Success [], w) |}.

(** A table whose second scan fails. *)
Definition broken_table : TableResource unit nat nat :=
  {| table_name := "BROKEN";
     load := λ w, (Success tt, w);
     scan := λ start w,
       match start with
       | None => (Success {| Items := [7]; Count := 1; LastEvaluatedKey := Some 7 |}, w)
       | Some _ => (Failure (ClientError "ProvisionedThroughputExceededException"), w)
       end;
     flush_amount := 25;
     batch_write_item := λ _ w, (Failure (ClientError "ValidationException"), w) |}.

(** * Properties *)

(** ** Examples *)

Example readlines_ex :
  readlines ("[a]" +:+ nl +:+ "k = v" +:+ nl +:+ "[b]")
  = ["[a]" +:+ nl; "k = v" +:+ nl; "[b]"].
Proof. reflexivity. Qed.

Example profile_names_ex :
  profile_names_of_lines
    ["[profile_1]" +:+ nl; "aws_access_key_id = X" +:+ nl; "[profile-3]" +:+ nl;
     "[profile 4]"; "[my.profile]" +:+ nl; "[]" +:+ nl; "[x] " +:+ nl]
  = ["profile_1"; "profile-3"; "profile 4"].
Proof. vm_compute. reflexivity. Qed.

Example profile_names_of_file_ex :
  profile_names_of_file
    ("[a]" +:+ String carriage_return nl +:+ "[b]" +:+ String carriage_return "[c"
     +:+ String carriage_return "d]" +:+ nl +:+ "[e]")
  = ["a"; "b"; "e"].
Proof. vm_compute. reflexivity. Qed.

Example format_thousands_ex :
  format_thousands 0 = "0" ∧ format_thousands 999 = "999"
  ∧ format_thousands 1000 = "1,000" ∧ format_thousands 4321 = "4,321".
Proof. vm_compute. done. Qed.

(** ** Text *)

Lemma text_chars (s : string) : text (chars s) = s.
Proof. apply string_of_list_ascii_of_string. Qed.

Lemma chars_text (l : list ascii) : chars (text l) = l.
Proof. apply list_ascii_of_string_of_list_ascii. Qed.

Lemma chars_inj (s1 s2 : string) : chars s1 = chars s2 → s1 = s2.
Proof. intros E. rewrite <- (text_chars s1), <- (text_chars s2). by rewrite E. Qed.

(** ** The matcher *)

Lemma exec_plus_unfold a ns n s mk :
  Re.exec (Re.Plus a :: ns) n s mk =
  match s with
  | c :: s' =>
      if Re.accepts a c then
        match Re.exec (Re.Plus a :: ns) (S n) s' mk with
        | Some r => Some r
        | None => Re.exec ns (S n) s' mk
        end
      else None
  | [] => None
  end.
Proof. by destruct s. Qed.

(** A match of [a+] takes a non-empty run of accepted characters. *)
Lemma exec_plus_sound a ns s : ∀ n mk r,
  Re.exec (Re.Plus a :: ns) n s mk = Some r →
  ∃ pre rest, s = pre ++ rest ∧ pre ≠ [] ∧ Forall (λ c, Re.accepts a c = true) pre
              ∧ Re.exec ns (n + length pre) rest mk = Some r.
Proof.
  induction s as [|c s IH]; intros n mk r; rewrite exec_plus_unfold; [done|].
  destruct (Re.accepts a c) eqn:Hc; [|done].
  destruct (Re.exec (Re.Plus a :: ns) (S n) s mk) as [r'|] eqn:Hrec.
  - intros [= ->]. destruct (IH _ _ _ Hrec) as (pre & rest & -> & _ & Hall & Hex).
    exists (c :: pre), rest. split_and!; [done|done|by constructor|].
    simpl. by replace (n + S (length pre)) with (S n + length pre) by lia.
  - intros Hex. exists [c], s. split_and!; [done|done|by repeat constructor|].
    simpl. by replace (n + 1) with (S n) by lia.
Qed.

(** [a+] is greedy: when the run cannot be made longer, it is taken whole. *)
Lemma exec_plus_longest a ns pre : ∀ n rest mk r,
  pre ≠ [] → Forall (λ c, Re.accepts a c = true) pre →
  Re.exec (Re.Plus a :: ns) (n + length pre) rest mk = None →
  Re.exec ns (n + length pre) rest mk = Some r →
  Re.exec (Re.Plus a :: ns) n (pre ++ rest) mk = Some r.
Proof.
  induction pre as [|c pre IH]; intros n rest mk r Hne Hall Hstop Hex; [done|].
  apply Forall_cons in Hall as [Hc Hall].
  simpl app. rewrite exec_plus_unfold, Hc.
  simpl length in *. replace (n + S (length pre)) with (S n + length pre) in * by lia.
  destruct pre as [|c' pre'].
  - simpl in *. replace (S (n + 0)) with (S n) in * by lia. by rewrite Hstop.
  - by rewrite (IH (S n) rest mk r).
Qed.

(** ** The profile pattern *)

Lemma exec_profile_tail n rest mk r :
  Re.exec profile_tail n rest mk = Some r ↔
  (rest = ["]"%char] ∨ rest = ["]"%char; newline]) ∧ r = (mk.1, Some n).
Proof.
  unfold profile_tail. simpl.
  destruct rest as [|c [|d [|e rest]]]; simpl.
  - naive_solver.
  - case_bool_decide; naive_solver.
  - case_bool_decide; [|naive_solver]. case_bool_decide; naive_solver.
  - case_bool_decide; naive_solver.
Qed.

Lemma profile_char_bracket : profile_char "]"%char = false.
Proof. reflexivity. Qed.

Lemma match_profile_iff line name :
  Re.match_group1 profile_pattern line = Some name ↔ is_header line name.
Proof.
  unfold Re.match_group1, profile_pattern.
  change (Re.exec _ 0 (chars line) (None, None)) with
    (match chars line with
     | c :: s' =>
         if bool_decide (c = "["%char)
         then Re.exec (Re.Plus (Re.Class profile_char) :: profile_tail) 1 s' (Some 1, None)
         else None
     | [] => None
     end).
  split.
  - destruct (chars line) as [|c s'] eqn:Hline; [done|].
    case_bool_decide as Hc; [subst c|done].
    destruct (Re.exec _ 1 s' _) as [[[i|] [j|]]|] eqn:Hex; try done.
    intros [= <-].
    apply exec_plus_sound in Hex as (pre & rest & -> & Hne & Hall & Hex).
    apply exec_profile_tail in Hex as [Hrest [= -> ->]].
    replace (S (length pre) - 1) with (length pre) by lia.
    change (drop 1 ("["%char :: pre ++ rest)) with (pre ++ rest).
    rewrite take_app_length.
    exists (drop 1 rest). rewrite chars_text. split_and!; [| |done|done].
    + destruct Hrest as [-> | ->]; auto.
    + f_equal. f_equal. by destruct Hrest as [-> | ->].
  - intros (suffix & Hsuf & -> & Hne & Hall).
    rewrite bool_decide_eq_true_2 by done.
    rewrite (exec_plus_longest _ _ (chars name) 1 _ _ (Some 1, Some (1 + length (chars name)))).
    + replace (1 + length (chars name) - 1) with (length (chars name)) by lia.
      change (drop 1 ("["%char :: ?l)) with l.
      by rewrite take_app_length, text_chars.
    + done.
    + done.
    + by rewrite exec_plus_unfold.
    + apply exec_profile_tail. split; [|done]. destruct Hsuf as [-> | ->]; auto.
Qed.

Lemma strip_newline_snoc l c :
  strip_newline (l ++ [c]) = if bool_decide (c = newline) then l else l ++ [c].
Proof.
  unfold strip_newline. rewrite reverse_snoc.
  case_bool_decide; [apply reverse_involutive|done].
Qed.

Lemma bracketed_iff l name :
  bracketed l = Some name ↔
  l = "["%char :: chars name ++ ["]"%char] ∧ chars name ≠ []
  ∧ Forall (λ c, profile_char c = true) (chars name).
Proof.
  unfold bracketed. split.
  - destruct l as [|c body]; [done|].
    case_bool_decide as Hc; [subst c|done].
    destruct (reverse body) as [|d rname] eqn:Hrev; [done|].
    destruct (bool_decide (d = "]"%char)) eqn:Hd; [|done].
    destruct (bool_decide (rname ≠ [])) eqn:Hne; [|done].
    destruct (forallb profile_char rname) eqn:Hall; [|done].
    apply bool_decide_eq_true_1 in Hd, Hne. subst d.
    intros [= <-]. rewrite chars_text.
    apply (f_equal reverse) in Hrev. rewrite reverse_involutive in Hrev.
    rewrite reverse_cons in Hrev. split_and!.
    + by rewrite Hrev.
    + intros E. apply Hne. apply (f_equal reverse) in E.
      by rewrite reverse_involutive in E.
    + apply Forall_reverse. rewrite forallb_forall in Hall.
      apply Forall_forall. intros x Hx. apply Hall. by apply list_elem_of_In.
  - intros (-> & Hne & Hall).
    rewrite bool_decide_eq_true_2 by done.
    rewrite reverse_snoc.
    rewrite bool_decide_eq_true_2 by done.
    rewrite bool_decide_eq_true_2.
    2:{ intros E. apply Hne. apply (f_equal reverse) in E.
        by rewrite reverse_involutive in E. }
    replace (forallb profile_char (reverse (chars name))) with true.
    + simpl. by rewrite reverse_involutive, text_chars.
    + symmetry. apply forallb_forall. intros x Hx.
      apply list_elem_of_In in Hx. rewrite elem_of_reverse in Hx.
      rewrite Forall_forall in Hall. by apply Hall.
Qed.

Lemma bracket_snoc (c d e : ascii) (l : list ascii) :
  (c :: l ++ [d]) ++ [e] = c :: l ++ [d; e].
Proof. simpl. by rewrite <- app_assoc. Qed.

Lemma header_name_iff line name :
  header_name line = Some name ↔ is_header line name.
Proof.
  unfold header_name, is_header. rewrite bracketed_iff.
  destruct (chars line) as [|c l _] using rev_ind.
  - split; [by intros [? _]|]. by intros (? & _ & ? & _).
  - rewrite strip_newline_snoc. case_bool_decide as Hc.
    + subst c. split.
      * intros (-> & Hne & Hall). exists [newline].
        split_and!; [by right| |done|done].
        apply bracket_snoc.
      * intros (suffix & [-> | ->] & E & Hne & Hall).
        -- rewrite app_comm_cons in E. apply app_inj_tail in E as [_ E].
           by inversion E.
        -- rewrite <- bracket_snoc in E.
           by apply app_inj_tail in E as [-> _].
    + split.
      * intros (E & Hne & Hall). exists []. split_and!; [by left|done..].
      * intros (suffix & [-> | ->] & E & Hne & Hall); [done|].
        rewrite <- bracket_snoc in E.
        by apply app_inj_tail in E as [_ ->].
Qed.

(** The pattern and the specification's reading pick the same names. *)
Lemma match_profile_header line :
  Re.match_group1 profile_pattern line = header_name line.
Proof.
  destruct (Re.match_group1 profile_pattern line) as [name|] eqn:E1.
  - symmetry. by apply header_name_iff, match_profile_iff.
  - destruct (header_name line) as [name|] eqn:E2; [|done].
    apply header_name_iff, match_profile_iff in E2. congruence.
Qed.

Lemma profile_names_headers lines :
  profile_names_of_lines lines = omap header_name lines.
Proof.
  unfold profile_names_of_lines. induction lines as [|line lines IH]; [done|].
  change (omap ?f (line :: lines))
    with (match f line with Some y => y :: omap f lines | None => omap f lines end).
  by rewrite match_profile_header, IH.
Qed.

Lemma header_name_chars line name c :
  header_name line = Some name → c ∈ chars name → profile_char c = true.
Proof.
  intros (suffix & _ & _ & _ & Hall)%header_name_iff Hc.
  rewrite Forall_forall in Hall. by apply Hall.
Qed.

(** ** The lines of a file *)

(** Induction over a text that may step over two characters at once, as
    the reading of [\r\n] does. *)
Lemma string_ind2 (P : string → Prop) :
  P EmptyString →
  (∀ c, P (String c EmptyString)) →
  (∀ c d s, P s → P (String d s) → P (String c (String d s))) →
  ∀ s, P s.
Proof.
  intros Hnil Hone Htwo s.
  assert (P s ∧ ∀ c, P (String c s)) as [? _]; [|done].
  induction s as [|d s [IH1 IH2]]; [done|].
  split; [apply IH2|]. intros c. by apply Htwo.
Qed.

Lemma newline_not_cr : newline ≠ carriage_return.
Proof. discriminate. Qed.

Lemma open_text_other c s :
  c ≠ carriage_return → open_text (String c s) = String c (open_text s).
Proof. intros Hc. simpl. by rewrite bool_decide_eq_false_2. Qed.

Lemma open_text_cr_lf s :
  open_text (String carriage_return (String newline s)) = String newline (open_text s).
Proof. reflexivity. Qed.

Lemma open_text_cr d s :
  d ≠ newline →
  open_text (String carriage_return (String d s))
  = String newline (open_text (String d s)).
Proof.
  intros Hd. change (open_text (String carriage_return (String d s)))
    with (String newline (if bool_decide (d = newline) then open_text s
                          else open_text (String d s))).
  by rewrite bool_decide_eq_false_2.
Qed.

Lemma readlines_lf s : readlines (String newline s) = nl :: readlines s.
Proof. reflexivity. Qed.

Lemma readlines_other c s :
  c ≠ newline →
  readlines (String c s)
  = match readlines s with
    | [] => [String c EmptyString]
    | l :: ls => String c l :: ls
    end.
Proof. intros Hc. simpl. by rewrite bool_decide_eq_false_2. Qed.

Lemma file_lines_lf s : file_lines (String newline s) = nl :: file_lines s.
Proof. reflexivity. Qed.

Lemma file_lines_cr_lf s :
  file_lines (String carriage_return (String newline s)) = nl :: file_lines s.
Proof. reflexivity. Qed.

Lemma file_lines_cr d s :
  d ≠ newline →
  file_lines (String carriage_return (String d s)) = nl :: file_lines (String d s).
Proof.
  intros Hd. change (file_lines (String carriage_return (String d s)))
    with (nl :: if bool_decide (d = newline) then file_lines s
                else file_lines (String d s)).
  by rewrite bool_decide_eq_false_2.
Qed.

Lemma file_lines_other c s :
  c ≠ carriage_return → c ≠ newline →
  file_lines (String c s)
  = match file_lines s with
    | [] => [String c EmptyString]
    | l :: ls => String c l :: ls
    end.
Proof. intros Hcr Hlf. simpl. by rewrite !bool_decide_eq_false_2. Qed.

(** What the program reads, the file opened in text mode and cut at its
    newlines, are the lines of the file. *)
Lemma readlines_open_text s : readlines (open_text s) = file_lines s.
Proof.
  induction s as [|c|c d s IH1 IH2] using string_ind2; [done| |].
  - destruct (decide (c = carriage_return)) as [->|Hcr]; [done|].
    rewrite open_text_other by done.
    destruct (decide (c = newline)) as [->|Hlf]; [done|].
    by rewrite readlines_other, file_lines_other.
  - destruct (decide (c = carriage_return)) as [->|Hcr].
    + destruct (decide (d = newline)) as [->|Hd].
      * by rewrite open_text_cr_lf, readlines_lf, file_lines_cr_lf, IH1.
      * by rewrite open_text_cr, readlines_lf, file_lines_cr, IH2.
    + rewrite open_text_other by done.
      destruct (decide (c = newline)) as [->|Hlf].
      * by rewrite readlines_lf, file_lines_lf, IH2.
      * by rewrite readlines_other, file_lines_other, IH2.
Qed.

Lemma is_line_nl : is_line nl.
Proof. exists EmptyString. split_and!; [by right|done|constructor]. Qed.

Lemma is_line_single c :
  c ≠ carriage_return → c ≠ newline → is_line (String c EmptyString).
Proof.
  intros Hcr Hlf. exists (String c EmptyString).
  split_and!; [by left|done|by repeat constructor].
Qed.

Lemma is_line_cons c l :
  c ≠ carriage_return → c ≠ newline → is_line l → is_line (String c l).
Proof.
  intros Hcr Hlf (body & Hl & _ & Hbody). exists (String c body).
  split_and!; [|done|by constructor].
  destruct Hl as [-> | ->]; [by left|by right].
Qed.

(** Every line of a file is a line: it is not empty, and [\n] is its last
    character or not in it, and [\r] is not in it. *)
Lemma file_lines_are_lines s : Forall is_line (file_lines s).
Proof.
  assert (∀ c s, c ≠ carriage_return → c ≠ newline →
            Forall is_line (file_lines s) → Forall is_line (file_lines (String c s)))
    as Hother.
  { intros c s' Hcr Hlf Hall. rewrite file_lines_other by done.
    destruct (file_lines s') as [|l ls].
    - constructor; [by apply is_line_single|done].
    - apply Forall_cons in Hall as [Hl Hls].
      constructor; [by apply is_line_cons|done]. }
  induction s as [|c|c d s IH1 IH2] using string_ind2; [constructor| |].
  - destruct (decide (c = carriage_return)) as [->|Hcr];
      [by repeat constructor; apply is_line_nl|].
    destruct (decide (c = newline)) as [->|Hlf];
      [by repeat constructor; apply is_line_nl|].
    apply Hother; [done|done|constructor].
  - destruct (decide (c = carriage_return)) as [->|Hcr].
    + destruct (decide (d = newline)) as [->|Hd].
      * rewrite file_lines_cr_lf. constructor; [apply is_line_nl|done].
      * rewrite file_lines_cr by done. constructor; [apply is_line_nl|done].
    + destruct (decide (c = newline)) as [->|Hlf].
      * rewrite file_lines_lf. constructor; [apply is_line_nl|done].
      * by apply Hother.
Qed.



(** ** The reader *)

Section Reader.
Context {W Item Cursor : Type}.
Implicit Types (t : TableResource W Item Cursor) (st : State W Item Cursor).
Implicit Types (rs : list (ScanResponse Item Cursor)).

Lemma advance_nil st : advance st (remote st) [] [] = st.
Proof. destruct st. unfold advance. simpl. by rewrite !app_nil_r. Qed.

Lemma advance_advance st w1 o1 l1 w2 o2 l2 :
  advance (advance st w1 o1 l1) w2 o2 l2 = advance st w2 (o1 ++ o2) (l1 ++ l2).
Proof. unfold advance. simpl. by rewrite !app_assoc. Qed.

Lemma call_success {A} rq (method : W → Result A * W) st a w :
  method (remote st) = (Success a, w) →
  call rq method st = (Return a, advance st w [] [rq]).
Proof. intros E. unfold call, advance. rewrite E. by rewrite app_nil_r. Qed.

Lemma call_failure {A} rq (method : W → Result A * W) st e w :
  method (remote st) = (Failure e, w) →
  call rq method st = (Raise e, advance st w [] [rq]).
Proof. intros E. unfold call, advance. rewrite E. by rewrite app_nil_r. Qed.

Lemma emit_advance o st :
  emit o st = (Return tt, advance st (remote st) [o] []).
Proof. unfold emit, advance. by rewrite app_nil_r. Qed.

Lemma bind_return {A B} (m : M W Item Cursor A) (k : A → M W Item Cursor B) st a st' :
  m st = (Return a, st') → bind m k st = k a st'.
Proof. intros E. unfold bind. by rewrite E. Qed.

Lemma bar_next_advance bar n st :
  bar_next bar n st
  = (Return {| message := message bar; index := index bar + n |},
     advance st (remote st) [Bar (message bar) (index bar + n)] []).
Proof. unfold bar_next. erewrite bind_return by apply emit_advance. done. Qed.

Lemma scan_loop_done fuel t items bar st :
  scan_loop fuel t items None bar st = (Return (items, bar), st).
Proof. by destruct fuel. Qed.

(** The loop follows a chain of responses to its end. *)
Lemma scan_loop_chain t rs : ∀ key fuel items bar st w',
  scan_chain t (Some key) (remote st) rs w' →
  length rs ≤ fuel →
  scan_loop fuel t items (Some key) bar st
  = (Return (items ++ concat (Items <$> rs),
             {| message := message bar; index := chain_index (index bar) rs |}),
     advance st w' (chain_bars (message bar) (index bar) rs)
                   (chain_requests (table_name t) (Some key) rs)).
Proof.
  induction rs as [|r rs IH]; intros key fuel items bar st w' Hchain Hfuel;
    [inversion Hchain|].
  destruct fuel as [|fuel]; [simpl in Hfuel; lia|].
  simpl in Hfuel. simpl scan_loop.
  inversion Hchain as [? ? ? ? Hscan Hlast | ? ? ? w1 key' ? ? Hscan Hnext Hrest]; subst.
  - erewrite bind_return by (by apply call_success).
    erewrite bind_return by apply bar_next_advance.
    rewrite Hlast, scan_loop_done, advance_advance. simpl.
    by rewrite app_nil_r.
  - erewrite bind_return by (by apply call_success).
    erewrite bind_return by apply bar_next_advance.
    rewrite Hnext.
    rewrite (IH key' fuel _ _ _ w').
    + simpl. rewrite !advance_advance. rewrite Hnext.
      by rewrite <- app_assoc.
    + done.
    + lia.
Qed.

Lemma finally_return {A} (m : M W Item Cursor A) cleanup st a st' st'' :
  m st = (Return a, st') → cleanup st' = (Return tt, st'') →
  finally m cleanup st = (Return a, st'').
Proof. intros E1 E2. unfold finally. by rewrite E1, E2. Qed.

Lemma with_counter_return {A} msg (body : Counter → M W Item Cursor A) st a st' :
  body {| message := msg; index := 0 |} st = (Return a, st') →
  with_counter msg body st = (Return a, advance st' (remote st') [BarFinish] []).
Proof. intros E. unfold with_counter. eapply finally_return; [done|apply emit_advance]. Qed.

(** The reader returns the items of a chain of responses, page after
    page, given one unit of fuel per response after the first. *)
Lemma get_dynamodb_items_chain t rs fuel st w' :
  scan_chain t None (remote st) rs w' →
  length rs ≤ S fuel →
  get_dynamodb_items fuel t st
  = (Return (concat (Items <$> rs)),
     advance st w' (chain_bars (download_msg t) 0 rs ++ [BarFinish; BarFinish])
                   (chain_requests (table_name t) None rs)).
Proof.
  intros Hchain Hfuel. unfold get_dynamodb_items.
  inversion Hchain as [? ? r ? Hscan Hlast | ? ? r w1 key rs' ? Hscan Hnext Hrest]; subst.
  - erewrite with_counter_return.
    2:{ erewrite bind_return by (by apply call_success).
        erewrite bind_return by apply bar_next_advance.
        rewrite Hlast. erewrite bind_return by apply scan_loop_done.
        unfold bar_finish. erewrite bind_return by apply emit_advance.
        reflexivity. }
    simpl. rewrite !advance_advance. simpl. by rewrite ?app_nil_r.
  - erewrite with_counter_return.
    2:{ erewrite bind_return by (by apply call_success).
        erewrite bind_return by apply bar_next_advance.
        rewrite Hnext.
        erewrite bind_return.
        2:{ apply scan_loop_chain; [done|]. simpl in Hfuel. lia. }
        unfold bar_finish. erewrite bind_return by apply emit_advance.
        reflexivity. }
    simpl. rewrite !advance_advance. simpl. rewrite ?app_nil_r.
    by rewrite Hnext.
Qed.

(** A script is a chain up to its first response without a cursor. *)
Lemma scripted_chain name pre r post : ∀ start,
  Forall (λ x : ScanResponse Item Cursor, is_Some (LastEvaluatedKey x)) pre →
  LastEvaluatedKey r = None →
  scan_chain (scripted_table name) start (pre ++ r :: post) (pre ++ [r]) post.
Proof.
  induction pre as [|x pre IH]; intros start Hpre Hr.
  - by apply scan_chain_last.
  - apply Forall_cons in Hpre as [[key Hkey] Hpre].
    eapply scan_chain_more; [done|done|]. by apply IH.
Qed.

Lemma first_without_cursor (script : list (ScanResponse Item Cursor)) :
  Exists (λ r, LastEvaluatedKey r = None) script →
  ∃ pre r post, script = pre ++ r :: post
    ∧ Forall (λ x, is_Some (LastEvaluatedKey x)) pre
    ∧ LastEvaluatedKey r = None.
Proof.
  induction script as [|x script IH]; intros Hex; [by inversion Hex|].
  destruct (LastEvaluatedKey x) as [key|] eqn:Hx.
  - apply Exists_cons in Hex as [Hex|Hex]; [congruence|].
    destruct (IH Hex) as (pre & r & post & -> & Hpre & Hr).
    exists (x :: pre), r, post. split_and!; [done| |done].
    constructor; [by rewrite Hx|done].
  - exists [], x, script. by split_and!.
Qed.

End Reader.

(** C1. When the store splits the scan of a table into any finite number
    of pages (a chain of responses whose items, taken together, are the
    items [content] of the table, each once), [get_dynamodb_items] returns
    the pages joined in order: exactly the items of the table, none twice
    and none left out, however the pages divide them. *)
Theorem get_dynamodb_items_all_pages {W Item Cursor}
    (t : TableResource W Item Cursor) (st : State W Item Cursor)
    (content : list Item) (rs : list (ScanResponse Item Cursor)) (w' : W) (fuel : nat) :
  NoDup content →
  scan_chain t None (remote st) rs w' →
  concat (Items <$> rs) ≡ₚ content →
  length rs ≤ S fuel →
  ∃ items st',
    get_dynamodb_items fuel t st = (Return items, st')
    ∧ items = concat (Items <$> rs)
    ∧ items ≡ₚ content
    ∧ NoDup items
    ∧ (∀ x, x ∈ items ↔ x ∈ content).
Proof.
  intros Hnodup Hchain Hperm Hfuel.
  eexists _, _. split; [by apply get_dynamodb_items_chain|].
  split_and!; [done|done|by rewrite Hperm|].
  intros x. by rewrite Hperm.
Qed.

Lemma get_dynamodb_items_all_pages_witness :
  ∃ items st',
    get_dynamodb_items 1 (scripted_table "TEST_SOURCE") (start_with two_pages)
    = (Return items, st')
    ∧ items = [1; 2; 3]
    ∧ items ≡ₚ [3; 1; 2]
    ∧ NoDup items
    ∧ (∀ x, x ∈ items ↔ x ∈ [3; 1; 2]).
Proof.
  apply (get_dynamodb_items_all_pages (scripted_table "TEST_SOURCE")
           (start_with two_pages) [3; 1; 2] (take 2 two_pages) (drop 2 two_pages) 1).
  - repeat (apply NoDup_cons; split; [set_solver|]). apply NoDup_nil_2.
  - eapply scan_chain_more; [reflexivity|reflexivity|].
    apply scan_chain_last; reflexivity.
  - simpl. symmetry. apply Permutation_cons_append.
  - simpl. lia.
Defined.

(** C6. On every finite sequence of scan responses one of which has no
    cursor, the loop of [get_dynamodb_items] ends, and it ends at the
    first response without a cursor: it has asked for the responses [pre]
    before it and for that response [r], returns their items, and leaves
    the responses [post] after it unasked. *)
Theorem get_dynamodb_items_stops_at_first_end {Item Cursor}
    (name : string) (script : list (ScanResponse Item Cursor))
    (out : list Output) (log : list (Request Item Cursor)) :
  Exists (λ r, LastEvaluatedKey r = None) script →
  ∃ pre r post,
    script = pre ++ r :: post
    ∧ Forall (λ x, is_Some (LastEvaluatedKey x)) pre
    ∧ LastEvaluatedKey r = None
    ∧ ∀ fuel, length pre ≤ fuel →
        get_dynamodb_items fuel (scripted_table name)
          {| remote := script; console := out; requests := log |}
        = (Return (concat (Items <$> pre ++ [r])),
           {| remote := post;
              console := out ++ chain_bars (download_msg (scripted_table (Item:=Item) (Cursor:=Cursor) name)) 0 (pre ++ [r])
                             ++ [BarFinish; BarFinish];
              requests := log ++ chain_requests name None (pre ++ [r]) |}).
Proof.
  intros (pre & r & post & -> & Hpre & Hr)%first_without_cursor.
  exists pre, r, post. split_and!; [done..|].
  intros fuel Hfuel.
  rewrite (get_dynamodb_items_chain _ (pre ++ [r]) fuel _ post).
  - done.
  - by apply scripted_chain.
  - rewrite length_app. simpl. lia.
Qed.

Lemma get_dynamodb_items_stops_at_first_end_witness :
  ∃ pre r post,
    two_pages = pre ++ r :: post
    ∧ Forall (λ x, is_Some (LastEvaluatedKey x)) pre
    ∧ LastEvaluatedKey r = None
    ∧ ∀ fuel, length pre ≤ fuel →
        get_dynamodb_items fuel (scripted_table "TEST_SOURCE")
          {| remote := two_pages; console := []; requests := [] |}
        = (Return (concat (Items <$> pre ++ [r])),
           {| remote := post;
              console := [] ++ chain_bars (download_msg (scripted_table (Item:=nat) (Cursor:=nat) "TEST_SOURCE")) 0 (pre ++ [r])
                            ++ [BarFinish; BarFinish];
              requests := [] ++ chain_requests "TEST_SOURCE" None (pre ++ [r]) |}).
Proof.
  apply (get_dynamodb_items_stops_at_first_end "TEST_SOURCE" two_pages [] []).
  apply Exists_cons_tl, Exists_cons_hd. reflexivity.
Defined.

(** ** The writer *)

Section Writer.
Context {W Item Cursor : Type}.
Implicit Types (t : TableResource W Item Cursor) (st : State W Item Cursor).
Implicit Types (buf items : list Item) (bs : list (list Item)).

Lemma sends_refl t st : sends t st st [].
Proof. unfold sends. simpl. by rewrite app_nil_r. Qed.

Lemma sends_trans t st1 st2 st3 bs1 bs2 :
  sends t st1 st2 bs1 → sends t st2 st3 bs2 → sends t st1 st3 (bs1 ++ bs2).
Proof. unfold sends. intros E1 E2. by rewrite E2, E1, fmap_app, app_assoc. Qed.

Lemma sends_emit t o st x st' : emit o st = (x, st') → sends t st st' [].
Proof. intros [= <- <-]. unfold sends. simpl. by rewrite app_nil_r. Qed.

Lemma sends_bar_next t bar n st x st' :
  bar_next bar n st = (x, st') → sends t st st' [] ∧ ∃ bar', x = Return bar'.
Proof.
  intros [= <- <-]. split; [|by eexists].
  unfold sends. simpl. by rewrite app_nil_r.
Qed.

(** One flush is one batch of at most [flush_amount] items; what it took
    from the buffer is in the batch or still in the buffer. *)
Lemma flush_sends t buf st x st' :
  flush t buf st = (x, st') →
  x ≠ OutOfFuel ∧
  ∃ b, sends t st st' [b] ∧ length b ≤ flush_amount t
       ∧ ∀ buf', x = Return buf' → buf ⊆+ b ++ buf'.
Proof.
  unfold flush, bind, call, sends.
  destruct (batch_write_item t _ (remote st)) as [[unprocessed|e] w] eqn:E;
    simpl; intros [= <- <-]; (split; [done|]);
    exists (take (flush_amount t) buf); simpl;
    (split_and!; [done|rewrite length_take; lia|]); [|done].
  intros buf' [= <-]. rewrite app_assoc, take_drop.
  by apply submseteq_inserts_r.
Qed.

Lemma put_item_sends t buf item st x st' :
  put_item t buf item st = (x, st') →
  x ≠ OutOfFuel ∧
  ∃ bs, sends t st st' bs ∧ Forall (λ b, length b ≤ flush_amount t) bs
        ∧ ∀ buf', x = Return buf' → buf ++ [item] ⊆+ concat bs ++ buf'.
Proof.
  unfold put_item. case_bool_decide.
  - intros (Hfuel & b & Hs & Hlen & Hsub)%flush_sends. split; [done|].
    exists [b]. split_and!; [done|by repeat constructor|].
    intros buf' ->. simpl. rewrite app_nil_r. by apply Hsub.
  - intros [= <- <-]. split; [done|]. exists []. split_and!; [apply sends_refl|done|].
    by intros buf' [= <-].
Qed.

Lemma put_loop_sends t items : ∀ buf bar st x st',
  put_loop t items buf bar st = (x, st') →
  x ≠ OutOfFuel ∧
  ∃ bs, sends t st st' bs ∧ Forall (λ b, length b ≤ flush_amount t) bs
        ∧ ∀ r, x = Return r → buf ++ items ⊆+ concat bs ++ r.1.
Proof.
  induction items as [|item items IH]; intros buf bar st x st'.
  - intros [= <- <-]. split; [done|]. exists []. split_and!; [apply sends_refl|done|].
    intros r [= <-]. by rewrite app_nil_r.
  - simpl. unfold bind at 1.
    destruct (put_item t buf item st) as [x1 st1] eqn:E1.
    apply put_item_sends in E1 as (Hf1 & bs1 & Hs1 & Hall1 & Hsub1).
    destruct x1 as [buf1| | |]; [|intros [= <- <-]; split; [done|]; by exists bs1..|done].
    unfold bind at 1.
    destruct (bar_next bar 1 st1) as [x2 st2] eqn:E2.
    apply (sends_bar_next t) in E2 as [Hs2 [bar2 ->]].
    intros (Hf3 & bs3 & Hs3 & Hall3 & Hsub3)%IH. split; [done|].
    exists (bs1 ++ bs3). split_and!.
    + pose proof (sends_trans _ _ _ _ _ _ Hs1 Hs2) as Hs12.
      rewrite app_nil_r in Hs12. by eapply sends_trans.
    + by apply Forall_app.
    + intros r ->. rewrite concat_app.
      specialize (Hsub1 _ eq_refl). specialize (Hsub3 _ eq_refl).
      rewrite (cons_middle item buf items), app_assoc.
      trans ((concat bs1 ++ buf1) ++ items); [by apply submseteq_app|].
      rewrite <- !app_assoc. by apply submseteq_app.
Qed.

Lemma flush_all_sends t fuel : ∀ buf st x st',
  flush_all fuel t buf st = (x, st') →
  ∃ bs, sends t st st' bs ∧ Forall (λ b, length b ≤ flush_amount t) bs
        ∧ (x = Return tt → buf ⊆+ concat bs).
Proof.
  induction fuel as [|fuel IH]; intros buf st x st'.
  - destruct buf; intros [= <- <-]; exists []; (split_and!; [apply sends_refl|done|done]).
  - destruct buf as [|item buf].
    { intros [= <- <-]; exists []; by (split_and!; [apply sends_refl|done|]). }
    simpl. unfold bind at 1.
    destruct (flush t (item :: buf) st) as [x1 st1] eqn:E1.
    apply flush_sends in E1 as (Hf1 & b & Hs1 & Hlen & Hsub1).
    destruct x1 as [buf1| | |]; [|intros [= <- <-]; by exists [b]; split_and!; [done|repeat constructor|]..|done].
    intros (bs & Hs & Hall & Hsub)%IH.
    exists (b :: bs). split_and!.
    + by apply (sends_trans _ _ _ _ [b] bs Hs1).
    + by constructor.
    + intros ->. simpl. trans (b ++ buf1); [by apply Hsub1|].
      apply submseteq_app; [done|by apply Hsub].
Qed.

End Writer.

Section WriterRun.
Context {W Item Cursor : Type}.
Implicit Types (t : TableResource W Item Cursor) (st : State W Item Cursor).

Lemma with_counter_sends {A} t msg (body : Counter → M W Item Cursor A) st x st' :
  with_counter msg body st = (x, st') →
  ∃ st1, body {| message := msg; index := 0 |} st = (x, st1) ∧ sends t st1 st' [].
Proof.
  unfold with_counter, finally.
  destruct (body _ st) as [x1 st1]. exists st1.
  destruct x1; simplify_eq/=; (split; [done|]);
    unfold sends; simpl; by rewrite app_nil_r.
Qed.

Lemma with_counter_inv {A} msg (body : Counter → M W Item Cursor A) st x st' :
  with_counter msg body st = (x, st') →
  ∃ st1, body {| message := msg; index := 0 |} st = (x, st1)
         ∧ remote st' = remote st1 ∧ requests st' = requests st1.
Proof.
  unfold with_counter, finally.
  destruct (body _ st) as [x1 st1]. exists st1.
  destruct x1; by simplify_eq/=.
Qed.

(** Everything [write_items_to_dyanmodb_table] sends is a batch within the
    limit, and when it returns every item handed to it is in a batch. *)
Lemma write_items_sends fuel (items : list Item) t st x st' :
  write_items_to_dyanmodb_table fuel items t st = (x, st') →
  ∃ bs, sends t st st' bs ∧ Forall (λ b, length b ≤ flush_amount t) bs
        ∧ (x = Return tt → items ⊆+ concat bs).
Proof.
  unfold write_items_to_dyanmodb_table, with_batch_writer. unfold bind at 1.
  match goal with |- context [bind ?m ?k st] => destruct (bind m k st) as [x1 st1] eqn:E1 end.
  unfold bind at 1 in E1.
  match type of E1 with context [with_counter ?msg ?body st] =>
    destruct (with_counter msg body st) as [x2 st2] eqn:E2 end.
  apply (with_counter_sends t) in E2 as (st3 & E3 & Hs32).
  apply put_loop_sends in E3 as (Hf & bs1 & Hs1 & Hall1 & Hsub1).
  pose proof (sends_trans _ _ _ _ _ _ Hs1 Hs32) as Hs12. rewrite app_nil_r in Hs12.
  destruct x2 as [r| | |];
    [|simplify_eq; intros [= <- <-]; exists bs1; by split_and!..|done].
  unfold bind, bar_finish, emit, ret in E1. simplify_eq/=.
  intros (bs2 & Hs2 & Hall2 & Hsub2)%flush_all_sends.
  exists (bs1 ++ bs2). split_and!.
  - eapply sends_trans; [done|]. unfold sends in *. simpl in *. done.
  - by apply Forall_app.
  - intros Hx. rewrite concat_app. trans (concat bs1 ++ r.1); [by apply Hsub1|].
    apply submseteq_app; [done|by apply Hsub2].
Qed.

End WriterRun.

Lemma batches_total {A} (n : nat) (bs : list (list A)) :
  Forall (λ b, length b ≤ n) bs → length (concat bs) ≤ n * length bs.
Proof.
  induction 1 as [|b bs Hb _ IH]; simpl; [lia|]. rewrite length_app. lia.
Qed.

Lemma ceil_div_le (a n k : nat) : 0 < n → a ≤ n * k → ceil_div a n ≤ k.
Proof.
  intros Hn Ha. unfold ceil_div.
  apply Nat.lt_succ_r, Nat.Div0.div_lt_upper_bound. lia.
Qed.

(** C7. Whatever the table answers, every batch that
    [write_items_to_dyanmodb_table] submits has at most [flush_amount]
    items (the configured limit), and when the writer returns, the items
    of [S] are all in the batches, so that there are at least
    [ceil(|S| / flush_amount)] submissions. *)
Theorem batches_respect_limit {W Item Cursor} (fuel : nat) (items : list Item)
    (t : TableResource W Item Cursor) (st st' : State W Item Cursor)
    (o : Outcome unit) :
  0 < flush_amount t →
  write_items_to_dyanmodb_table fuel items t st = (o, st') →
  ∃ batches,
    requests st' = requests st ++ (BatchWriteItem (table_name t) <$> batches)
    ∧ Forall (λ b, length b ≤ flush_amount t) batches
    ∧ (o = Return tt →
         items ⊆+ concat batches
         ∧ ceil_div (length items) (flush_amount t) ≤ length batches).
Proof.
  intros Hpos (bs & Hs & Hall & Hsub)%write_items_sends.
  exists bs. split_and!; [done|done|].
  intros Ho. split; [by apply Hsub|].
  apply ceil_div_le; [done|].
  etrans; [apply submseteq_length, Hsub, Ho|]. by apply batches_total.
Qed.


(** C10. With no items, [write_items_to_dyanmodb_table] returns without
    an error: the loop hands nothing to the batch writer, which has
    nothing to send when the block ends, so that no request is made and the
    remote side, the destination table with it, is as before; only the
    counter is finished on the console. *)
Theorem write_no_items {W Item Cursor} (fuel : nat)
    (t : TableResource W Item Cursor) (st : State W Item Cursor) (bar : Counter) :
  put_loop t [] [] bar st = (Return ([], bar), st)
  ∧ write_items_to_dyanmodb_table fuel [] t st
    = (Return tt,
       {| remote := remote st;
          console := console st ++ [BarFinish; BarFinish];
          requests := requests st |}).
Proof.
  split; [done|].
  unfold write_items_to_dyanmodb_table, with_batch_writer.
  erewrite bind_return.
  2:{ erewrite bind_return by (by apply with_counter_return).
      unfold bar_finish. erewrite bind_return by apply emit_advance. reflexivity. }
  destruct fuel; simpl; unfold ret, advance; simpl;
    by rewrite !app_nil_r, <- app_assoc.
Qed.

(** ** The backing store *)

Section StoreFacts.
Context `{Countable Key} {Item : Type} (key_of : Item → Key).
Implicit Types (content : gmap Key Item) (items : list Item).

Lemma upsert_all_lookup items : ∀ content k,
  foldl (upsert key_of) content items !! k
  = match latest key_of k items with
    | Some item => Some item
    | None => content !! k
    end.
Proof.
  induction items as [|item items IH]; intros content k; [done|].
  simpl. rewrite IH. destruct (latest key_of k items); [done|].
  unfold upsert. case_bool_decide as Hk.
  - subst k. by rewrite lookup_insert_eq.
  - by rewrite lookup_insert_ne.
Qed.

(** Writing the same items again changes nothing. *)
Lemma upsert_all_idempotent items content :
  foldl (upsert key_of) (foldl (upsert key_of) content items) items
  = foldl (upsert key_of) content items.
Proof.
  apply map_eq. intros k. rewrite !upsert_all_lookup.
  by destruct (latest key_of k items).
Qed.

Lemma upsert_all_app items1 items2 content :
  foldl (upsert key_of) content (items1 ++ items2)
  = foldl (upsert key_of) (foldl (upsert key_of) content items1) items2.
Proof. apply foldl_app. Qed.

Lemma upsert_all_well_keyed items : ∀ content,
  well_keyed key_of content → well_keyed key_of (foldl (upsert key_of) content items).
Proof.
  induction items as [|item items IH]; intros content Hwk; [done|].
  simpl. apply IH. intros k x. unfold upsert.
  destruct (decide (key_of item = k)) as [<-|Hne].
  - rewrite lookup_insert_eq. by intros [= <-].
  - rewrite lookup_insert_ne by done. apply Hwk.
Qed.

(** Items of pairwise different keys, none of them in the table yet, are
    all in the table afterwards, next to what was there. *)
Lemma upsert_all_fresh items : ∀ content,
  NoDup (key_of <$> items) →
  (∀ item, item ∈ items → content !! key_of item = None) →
  scan_order (foldl (upsert key_of) content items) ≡ₚ scan_order content ++ items.
Proof.
  unfold scan_order.
  induction items as [|item items IH]; intros content Hnodup Hfresh.
  - by rewrite app_nil_r.
  - rewrite fmap_cons in Hnodup. apply NoDup_cons in Hnodup as [Hitem Hnodup].
    simpl. rewrite IH; [|done|].
    + unfold upsert. rewrite map_to_list_insert by (apply Hfresh; left).
      simpl. by rewrite Permutation_middle.
    + intros x Hx. unfold upsert. rewrite lookup_insert_ne.
      * apply Hfresh. by right.
      * intros E. apply Hitem. rewrite E. by apply list_elem_of_fmap_2.
Qed.

End StoreFacts.

(** ** Writing to the store *)

Section StoreWrite.
Context `{Countable Key} {Item : Type} (key_of : Item → Key).
Context (svc : Service) (name profile region : string).
Implicit Types (content : gmap Key Item) (items buf : list Item).
Implicit Types (st : State (gmap TableId (gmap Key Item)) Item Key).

Let id : TableId := (name, profile, region).
Let t := dynamodb_table key_of svc name profile region.

Lemma flush_store buf st content :
  remote st !! id = Some content →
  flush t buf st
  = (Return (drop (batch_limit svc) buf),
     advance st (<[id := foldl (upsert key_of) content (take (batch_limit svc) buf)]> (remote st))
       [] [BatchWriteItem name (take (batch_limit svc) buf)]).
Proof.
  intros Hid. unfold flush.
  erewrite bind_return.
  2:{ apply call_success. simpl. fold id. rewrite Hid. reflexivity. }
  unfold ret. by rewrite app_nil_r.
Qed.

(** The loop on the store: what is written and what waits in the buffer
    amount to the items handed over so far. *)
Lemma put_loop_store items : ∀ buf bar st content,
  0 < batch_limit svc →
  remote st !! id = Some content →
  length buf < batch_limit svc →
  ∃ buf' bar' st' content',
    put_loop t items buf bar st = (Return (buf', bar'), st')
    ∧ length buf' < batch_limit svc
    ∧ remote st' = <[id := content']> (remote st)
    ∧ foldl (upsert key_of) content' buf' = foldl (upsert key_of) content (buf ++ items).
Proof.
  induction items as [|item items IH]; intros buf bar st content Hpos Hid Hbuf.
  - exists buf, bar, st, content. rewrite app_nil_r.
    split_and!; [done|done|by rewrite insert_id|done].
  - simpl put_loop. unfold put_item.
    assert (length (buf ++ [item]) = S (length buf)) as Hlen
      by (rewrite length_app; simpl; lia).
    case_bool_decide as Hfull.
    + erewrite bind_return by (by apply flush_store).
      erewrite bind_return by apply bar_next_advance.
      rewrite take_ge, drop_ge by (simpl; lia).
      match goal with |- context [put_loop t items ?b ?br ?s] =>
        destruct (IH b br s (foldl (upsert key_of) content (buf ++ [item]))) as
          (buf' & bar' & st' & content' & Hrun & Hlen' & Hrem & Hfold)
      end.
      { done. }
      { simpl. apply lookup_insert_eq. }
      { simpl. lia. }
      exists buf', bar', st', content'. split_and!; [exact Hrun|done| |].
      * rewrite Hrem. simpl. by rewrite insert_insert_eq.
      * rewrite Hfold. simpl.
        by rewrite <- upsert_all_app, <- app_assoc.
    + erewrite bind_return by reflexivity.
      erewrite bind_return by apply bar_next_advance.
      match goal with |- context [put_loop t items ?b ?br ?s] =>
        destruct (IH b br s content) as
          (buf' & bar' & st' & content' & Hrun & Hlen' & Hrem & Hfold)
      end.
      { done. }
      { simpl. exact Hid. }
      { simpl in Hfull. lia. }
      exists buf', bar', st', content'. split_and!; [exact Hrun|done|done|].
      by rewrite Hfold, (cons_middle item buf items), app_assoc.
Qed.

Lemma flush_all_nil fuel st : flush_all fuel t [] st = (Return tt, st).
Proof. by destruct fuel. Qed.

(** On an existing table the writer returns, and the table then holds
    the items written over what it held. *)
Lemma write_items_store fuel items st content :
  0 < batch_limit svc →
  (items ≠ [] → 0 < fuel) →
  remote st !! id = Some content →
  ∃ st',
    write_items_to_dyanmodb_table fuel items t st = (Return tt, st')
    ∧ remote st' = <[id := foldl (upsert key_of) content items]> (remote st).
Proof.
  intros Hpos Hfuel Hid.
  unfold write_items_to_dyanmodb_table, with_batch_writer.
  match goal with |- context [with_counter ?msg _] => set (msg0 := msg) end.
  destruct (put_loop_store items [] {| message := msg0; index := 0 |} st content)
    as (buf' & bar' & st1 & content' & Hrun & Hlen & Hrem & Hfold); [done|done|simpl; lia|].
  erewrite bind_return.
  2:{ erewrite bind_return by (apply with_counter_return; exact Hrun).
      unfold bar_finish. erewrite bind_return by apply emit_advance. reflexivity. }
  simpl in Hfold. simpl.
  destruct buf' as [|item buf'].
  - rewrite flush_all_nil. eexists. split; [done|]. simpl in *. by rewrite Hrem, Hfold.
  - destruct fuel as [|fuel].
    { destruct items as [|? ?]; [|specialize (Hfuel ltac:(done)); lia].
      simpl in Hrun. by simplify_eq. }
    simpl flush_all.
    erewrite bind_return.
    2:{ apply (flush_store _ _ content'). simpl. rewrite Hrem. apply lookup_insert_eq. }
    rewrite take_ge, drop_ge by lia. rewrite flush_all_nil.
    eexists. split; [done|]. simpl in Hfold |- *.
    by rewrite Hrem, insert_insert_eq, Hfold.
Qed.

End StoreWrite.

Lemma batches_respect_limit_witness :
  ∃ st',
    write_items_to_dyanmodb_table 1 three_items test_dest (start_with test_tables)
    = (Return tt, st')
    ∧ ∃ batches,
        requests st'
        = [] ++ (BatchWriteItem (Cursor:=string) "TEST_DESTINATION" <$> batches)
        ∧ Forall (λ b, length b ≤ 2) batches
        ∧ (Return tt = Return tt →
             three_items ⊆+ concat batches ∧ ceil_div 3 2 ≤ length batches).
Proof.
  assert (0 < flush_amount test_dest) as Hpos by (simpl; lia).
  destruct (write_items_store fst test_service "TEST_DESTINATION" "default" "us-east-1"
              1 three_items (start_with test_tables) ∅) as (st' & Hrun & _).
  - simpl. lia.
  - lia.
  - reflexivity.
  - exists st'. split; [exact Hrun|].
    exact (batches_respect_limit 1 three_items test_dest _ _ _ Hpos Hrun).
Defined.

(** C5. On a destination table in any state [D],
    [write_items_to_dyanmodb_table] run twice with the same items leaves
    what one run leaves: each item is put under its key, over whatever was
    there, so that a key of [S] holds the last item of [S] with that key and
    every other key what it held in [D]. *)
Theorem write_twice_is_write_once `{Countable Key} {Item : Type} (key_of : Item → Key)
    (svc : Service) (name profile region : string) (fuel : nat) (items : list Item)
    (st : State (gmap TableId (gmap Key Item)) Item Key) (D : gmap Key Item) :
  0 < batch_limit svc →
  0 < fuel →
  remote st !! (name, profile, region) = Some D →
  ∃ st1 st2,
    write_items_to_dyanmodb_table fuel items
      (dynamodb_table key_of svc name profile region) st = (Return tt, st1)
    ∧ write_items_to_dyanmodb_table fuel items
        (dynamodb_table key_of svc name profile region) st1 = (Return tt, st2)
    ∧ remote st2 = remote st1
    ∧ remote st1 = <[(name, profile, region) := foldl (upsert key_of) D items]> (remote st)
    ∧ ∀ k, foldl (upsert key_of) D items !! k
           = match latest key_of k items with
             | Some item => Some item
             | None => D !! k
             end.
Proof.
  intros Hpos Hfuel HD.
  destruct (write_items_store key_of svc name profile region fuel items st D)
    as (st1 & Hrun1 & Hrem1); [done|done|done|].
  destruct (write_items_store key_of svc name profile region fuel items st1
              (foldl (upsert key_of) D items))
    as (st2 & Hrun2 & Hrem2); [done|done|by rewrite Hrem1, lookup_insert_eq|].
  exists st1, st2. split_and!; [done|done| |done|].
  - by rewrite Hrem2, upsert_all_idempotent, Hrem1, insert_insert_eq.
  - intros k. apply upsert_all_lookup.
Qed.

Lemma write_twice_is_write_once_witness :
  ∃ st1 st2,
    write_items_to_dyanmodb_table 1 three_items test_src (start_with test_tables)
    = (Return tt, st1)
    ∧ write_items_to_dyanmodb_table 1 three_items test_src st1 = (Return tt, st2)
    ∧ remote st2 = remote st1
    ∧ remote st1
      = <[src_id := foldl (upsert fst) (foldl (upsert fst) ∅ three_items) three_items]>
          test_tables
    ∧ ∀ k, foldl (upsert fst) (foldl (upsert fst) ∅ three_items) three_items !! k
           = match latest fst k three_items with
             | Some item => Some item
             | None => foldl (upsert fst) ∅ three_items !! k
             end.
Proof.
  apply (write_twice_is_write_once fst test_service "TEST_SOURCE" "default" "us-east-1"
           1 three_items (start_with test_tables) (foldl (upsert fst) ∅ three_items)).
  - simpl. lia.
  - lia.
  - reflexivity.
Defined.

(** ** Scanning the store *)

Section StoreScan.
Context `{Countable Key} {Item : Type} (key_of : Item → Key).
Context (svc : Service) (name profile region : string).
Implicit Types (content : gmap Key Item) (items : list Item).
Implicit Types (w : gmap TableId (gmap Key Item)).

Let id : TableId := (name, profile, region).
Let t := dynamodb_table key_of svc name profile region.

Lemma after_key_middle l1 x l2 :
  NoDup (key_of <$> (l1 ++ x :: l2)) →
  after_key key_of (key_of x) (l1 ++ x :: l2) = l2.
Proof.
  induction l1 as [|y l1 IH]; simpl; intros Hnodup.
  - by rewrite bool_decide_eq_true_2.
  - apply NoDup_cons in Hnodup as [Hy Hnodup].
    rewrite bool_decide_eq_false_2; [by apply IH|].
    intros E. apply Hy. rewrite E, fmap_app, fmap_cons. set_solver.
Qed.

Lemma scan_order_keys content :
  well_keyed key_of content → NoDup (key_of <$> scan_order content).
Proof.
  intros Hwk. unfold scan_order.
  assert (key_of <$> (map_to_list content).*2 = (map_to_list content).*1) as ->.
  { rewrite <- list_fmap_compose. apply list_fmap_ext.
    intros i [k item] Hin%list_elem_of_lookup_2%elem_of_map_to_list.
    simpl. by apply Hwk. }
  apply NoDup_fst_map_to_list.
Qed.

Lemma scan_store w content start :
  w !! id = Some content →
  scan t start w
  = (Success (scan_page key_of (page_limit svc) (scan_order content) start), w).
Proof. intros Hid. simpl. fold id. by rewrite Hid. Qed.

(** The store answers a scan with a chain of pages that cut up, in order,
    the items that were left to scan. *)
Lemma store_scan_chain w content :
  0 < page_limit svc →
  w !! id = Some content →
  NoDup (key_of <$> scan_order content) →
  ∀ n rest pre start,
    length rest ≤ n →
    scan_order content = pre ++ rest →
    resume key_of (scan_order content) start = rest →
    ∃ rs, scan_chain t start w rs w
          ∧ concat (Items <$> rs) = rest
          ∧ length rs ≤ S (length rest).
Proof.
  intros Hpos Hid Hnodup.
  induction n as [|n IH]; intros rest pre start Hlen Hpre Hres.
  - destruct rest; [|simpl in Hlen; lia].
    eexists [_]. split_and!.
    + apply scan_chain_last; [by apply scan_store|].
      simpl. by rewrite Hres, drop_nil.
    + simpl. by rewrite Hres, take_nil.
    + simpl. lia.
  - destruct (drop (page_limit svc) rest) as [|y rest'] eqn:Hdrop.
    + eexists [_]. split_and!.
      * apply scan_chain_last; [by apply scan_store|].
        simpl. by rewrite Hres, Hdrop.
      * simpl. rewrite Hres, app_nil_r.
        apply take_ge. by apply drop_nil_inv.
      * simpl. lia.
    + assert (page_limit svc < length rest) as Hlong.
      { apply (f_equal length) in Hdrop. rewrite length_drop in Hdrop.
        simpl in Hdrop. lia. }
      destruct (last (take (page_limit svc) rest)) as [x|] eqn:Hlast.
      2:{ apply last_None in Hlast. apply (f_equal length) in Hlast.
          rewrite length_take in Hlast. simpl in Hlast. lia. }
      apply last_Some in Hlast as [page' Hpage].
      destruct (IH (y :: rest') (pre ++ take (page_limit svc) rest) (Some (key_of x)))
        as (rs & Hchain & Hcat & Hrs).
      * apply (f_equal length) in Hdrop. rewrite length_drop in Hdrop. lia.
      * by rewrite <- Hdrop, <- app_assoc, take_drop.
      * simpl. rewrite Hpre, <- (take_drop (page_limit svc) rest), Hdrop, Hpage.
        rewrite <- app_assoc, app_assoc. simpl. rewrite <- app_assoc. simpl.
        rewrite app_assoc. apply after_key_middle.
        rewrite <- app_assoc. simpl.
        rewrite Hpre, <- (take_drop (page_limit svc) rest), Hdrop, Hpage in Hnodup.
        by rewrite <- !app_assoc in Hnodup.
      * eexists (_ :: rs). split_and!.
        -- eapply scan_chain_more; [by apply scan_store| |exact Hchain].
           simpl. rewrite Hres, Hdrop, Hpage, last_snoc. done.
        -- rewrite fmap_cons. change (concat (?a :: ?l)) with (a ++ concat l).
           rewrite Hcat. simpl. rewrite Hres, <- Hdrop. apply take_drop.
        -- simpl. apply (f_equal length) in Hdrop. rewrite length_drop in Hdrop.
           simpl in *. lia.
Qed.

(** The reader returns the items of a table of the store, in the order
    of the store, given fuel for one page per item. *)
Lemma get_dynamodb_items_store (fuel : nat) content
    (st : State (gmap TableId (gmap Key Item)) Item Key) :
  0 < page_limit svc →
  remote st !! id = Some content →
  well_keyed key_of content →
  length (scan_order content) ≤ fuel →
  ∃ st', get_dynamodb_items fuel t st = (Return (scan_order content), st')
         ∧ remote st' = remote st.
Proof.
  intros Hpos Hid Hwk Hfuel.
  destruct (store_scan_chain (remote st) content Hpos Hid (scan_order_keys _ Hwk)
              (length (scan_order content)) (scan_order content) [] None)
    as (rs & Hchain & Hcat & Hlen); [done..|].
  eexists. split.
  - rewrite <- Hcat. apply get_dynamodb_items_chain; [done|lia].
  - done.
Qed.

End StoreScan.

(** C2. On a destination table that is empty, writing items of pairwise
    different keys with [write_items_to_dyanmodb_table] and reading the
    table back with [get_dynamodb_items] gives the items written, each of
    them as it was and once, in the order of the store. *)
Theorem write_then_scan `{Countable Key} {Item : Type} (key_of : Item → Key)
    (svc : Service) (name profile region : string) (fuel : nat) (items : list Item)
    (st : State (gmap TableId (gmap Key Item)) Item Key) :
  0 < batch_limit svc →
  0 < page_limit svc →
  NoDup (key_of <$> items) →
  remote st !! (name, profile, region) = Some ∅ →
  length items ≤ fuel →
  ∃ st1 st2 read,
    write_items_to_dyanmodb_table fuel items
      (dynamodb_table key_of svc name profile region) st = (Return tt, st1)
    ∧ get_dynamodb_items fuel (dynamodb_table key_of svc name profile region) st1
      = (Return read, st2)
    ∧ read ≡ₚ items
    ∧ (∀ item, item ∈ read ↔ item ∈ items)
    ∧ remote st2 = remote st1.
Proof.
  intros Hbatch Hpage Hnodup Hempty Hfuel.
  destruct (write_items_store key_of svc name profile region fuel items st ∅)
    as (st1 & Hwrite & Hrem1); [done| |done|].
  { destruct items; [done|]. simpl in Hfuel. lia. }
  assert (scan_order (foldl (upsert key_of) ∅ items) ≡ₚ items) as Hperm.
  { rewrite (upsert_all_fresh key_of) by done.
    unfold scan_order. by rewrite map_to_list_empty. }
  destruct (get_dynamodb_items_store key_of svc name profile region fuel
              (foldl (upsert key_of) ∅ items) st1)
    as (st2 & Hread & Hrem2).
  - done.
  - by rewrite Hrem1, lookup_insert_eq.
  - by apply upsert_all_well_keyed.
  - by rewrite Hperm.
  - exists st1, st2, (scan_order (foldl (upsert key_of) ∅ items)).
    split_and!; [done|done|done| |done].
    intros item. by rewrite Hperm.
Qed.

Lemma write_then_scan_witness :
  ∃ st1 st2 read,
    write_items_to_dyanmodb_table 3 three_items test_dest (start_with test_tables)
    = (Return tt, st1)
    ∧ get_dynamodb_items 3 test_dest st1 = (Return read, st2)
    ∧ read ≡ₚ three_items
    ∧ (∀ item, item ∈ read ↔ item ∈ three_items)
    ∧ remote st2 = remote st1.
Proof.
  apply (write_then_scan fst test_service "TEST_DESTINATION" "default" "us-east-1"
           3 three_items (start_with test_tables)).
  - simpl. lia.
  - simpl. lia.
  - vm_compute. repeat (apply NoDup_cons; split; [set_solver|]). apply NoDup_nil_2.
  - reflexivity.
  - simpl. lia.
Defined.

(** ** The requests of a run *)

Section RunLog.
Context {W Item Cursor : Type}.
Implicit Types (t : TableResource W Item Cursor) (st : State W Item Cursor).

Lemma print_advance s st :
  print (W:=W) (Item:=Item) (Cursor:=Cursor) s st
  = (Return tt, advance st (remote st) [Echo s] []).
Proof. apply emit_advance. Qed.

Lemma bind_cases {A B} (m : M W Item Cursor A) (k : A → M W Item Cursor B) st :
  bind m k st
  = match m st with
    | (Return a, st1) => k a st1
    | (SysExit c, st1) => (SysExit c, st1)
    | (Raise e, st1) => (Raise e, st1)
    | (OutOfFuel, st1) => (OutOfFuel, st1)
    end.
Proof. reflexivity. Qed.

(** [validate_aws_credentials] makes one request, and either returns or
    ends the run with the status 1 or with an exception. *)
Lemma validate_requests (boto3 : Boto3 W Item Cursor) profile region st x st' :
  validate_aws_credentials boto3 profile region st = (x, st') →
  requests st' = requests st ++ [GetCallerIdentity profile region]
  ∧ ((∃ a, x = Return a) ∨ x = SysExit 1 ∨ ∃ e, x = Raise e).
Proof.
  unfold validate_aws_credentials, call, bind, print, emit, exit.
  destruct (get_caller_identity boto3 profile region (remote st)) as [[a|e] w].
  - intros [= <- <-]. eauto.
  - destruct e as [code| | |]; repeat case_bool_decide; simpl;
      intros [= <- <-]; eauto 6.
Qed.

(** [get_dynamodb_table] makes one request, and returns the table it
    asked for when it returns. *)
Lemma get_dynamodb_table_requests (boto3 : Boto3 W Item Cursor) name profile region st x st' :
  get_dynamodb_table boto3 name profile region st = (x, st') →
  requests st' = requests st ++ [Load (table_name (Table boto3 name profile region))]
  ∧ ((x = Return (Table boto3 name profile region)) ∨ x = SysExit 1 ∨ ∃ e, x = Raise e).
Proof.
  unfold get_dynamodb_table, call, bind, print, emit, exit.
  destruct (load (Table boto3 name profile region) (remote st)) as [[a|e] w].
  - intros [= <- <-]. eauto.
  - destruct e as [code| | |]; repeat case_bool_decide; simpl;
      intros [= <- <-]; eauto 6.
Qed.

(** The scans of the loop all resume from a cursor. *)
Lemma scan_loop_requests t fuel : ∀ items key bar st x st',
  scan_loop fuel t items key bar st = (x, st') →
  ∃ keys, requests st' = requests st ++ (Scan (table_name t) ∘ Some <$> keys).
Proof.
  induction fuel as [|fuel IH]; intros items key bar st x st'.
  - destruct key; intros [= <- <-]; exists []; simpl; by rewrite app_nil_r.
  - destruct key as [key|].
    2:{ intros [= <- <-]; exists []; simpl; by rewrite app_nil_r. }
    simpl. rewrite bind_cases. unfold call.
    destruct (scan t (Some key) (remote st)) as [[resp|e] w].
    2:{ intros [= <- <-]. by exists [key]. }
    rewrite bind_cases, bar_next_advance.
    intros (keys & Hlog)%IH. exists (key :: keys).
    rewrite Hlog. simpl. by rewrite app_nil_r, <- app_assoc.
Qed.

(** [get_dynamodb_items] sends scans only: one from the start of the
    table, then scans that resume from a cursor. *)
Lemma get_dynamodb_items_requests t fuel st x st' :
  get_dynamodb_items fuel t st = (x, st') →
  ∃ keys, requests st' = requests st
                         ++ Scan (table_name t) None :: (Scan (table_name t) ∘ Some <$> keys).
Proof.
  unfold get_dynamodb_items.
  intros (st1 & Hbody & Hfin)%(with_counter_sends t).
  unfold sends in Hfin. simpl in Hfin. rewrite app_nil_r in Hfin. rewrite Hfin.
  revert Hbody. rewrite bind_cases. unfold call.
  destruct (scan t None (remote st)) as [[resp|e] w].
  2:{ intros [= <- <-]. by exists []. }
  rewrite bind_cases, bar_next_advance, bind_cases.
  match goal with |- context [scan_loop fuel t ?i ?k ?b ?s] =>
    destruct (scan_loop fuel t i k b s) as [x2 st2] eqn:Hloop end.
  apply scan_loop_requests in Hloop as (keys & Hlog).
  simpl in Hlog. rewrite app_nil_r in Hlog.
  destruct x2; unfold bind, bar_finish, emit, ret; simpl; intros [= <- <-];
    exists keys; simpl; by rewrite Hlog, <- app_assoc.
Qed.

End RunLog.

(** C8. In every run, whatever the services answer, the requests come one
    after the other in this order: the two identity checks and the two
    table lookups, then the scans of the source table (the first from the
    start, each later one from a cursor), then the batch writes to the
    destination table.  Every scan is sent, and answered, before the first
    batch write; a request is a call that returns with its answer, so that
    no two are under way together. *)
Theorem reads_before_writes {W Item Cursor} (fuel : nat) (boto3 : Boto3 W Item Cursor)
    (src_table_name src_profile src_region
     dest_table_name dest_profile dest_region : string)
    (st st' : State W Item Cursor) (o : Outcome unit) :
  run fuel boto3 src_table_name src_profile src_region
      dest_table_name dest_profile dest_region st = (o, st') →
  ∃ pre scans writes,
    requests st' = requests st ++ pre ++ scans ++ writes
    ∧ Forall (λ rq, is_scan rq = false ∧ is_write rq = false) pre
    ∧ (scans = [] ∨
       ∃ keys, scans
               = Scan (table_name (Table boto3 src_table_name src_profile src_region)) None
                 :: (Scan (table_name (Table boto3 src_table_name src_profile src_region))
                     ∘ Some <$> keys))
    ∧ (∃ batches,
         writes = BatchWriteItem
                    (table_name (Table boto3 dest_table_name dest_profile dest_region))
                  <$> batches)
    ∧ (writes ≠ [] → scans ≠ []).
Proof.
  unfold run.
  do 6 (rewrite bind_cases, print_advance).
  rewrite bind_cases.
  match goal with |- context [validate_aws_credentials boto3 src_profile src_region ?s] =>
    assert (requests s = requests st) as Hst6 by (simpl; by rewrite !app_nil_r);
    destruct (validate_aws_credentials boto3 src_profile src_region s) as [x1 st7] eqn:Hv1
  end.
  apply validate_requests in Hv1 as [Hl1 Hx1]. rewrite Hst6 in Hl1.
  assert (∀ l, requests st' = requests st ++ l →
            Forall (λ rq : Request Item Cursor, is_scan rq = false ∧ is_write rq = false) l →
            ∃ pre scans writes,
              requests st' = requests st ++ pre ++ scans ++ writes
              ∧ Forall (λ rq, is_scan rq = false ∧ is_write rq = false) pre
              ∧ (scans = [] ∨
                 ∃ keys, scans
                   = Scan (table_name (Table boto3 src_table_name src_profile src_region)) None
                     :: (Scan (table_name (Table boto3 src_table_name src_profile src_region))
                         ∘ Some <$> keys))
              ∧ (∃ batches,
                   writes = BatchWriteItem
                              (table_name (Table boto3 dest_table_name dest_profile dest_region))
                            <$> batches)
              ∧ (writes ≠ [] → scans ≠ [])) as Hearly.
  { intros l Hl Hall. exists l, [], []. rewrite !app_nil_r.
    split_and!; [done|done|by left|by exists []|done]. }
  destruct Hx1 as [[a ->]|[->|[e ->]]];
    [|intros [= <- <-]; eapply Hearly; [exact Hl1|by repeat constructor]..].
  rewrite bind_cases.
  destruct (validate_aws_credentials boto3 dest_profile dest_region st7) as [x2 st8] eqn:Hv2.
  apply validate_requests in Hv2 as [Hl2 Hx2]. rewrite Hl1, <- app_assoc in Hl2.
  destruct Hx2 as [[a' ->]|[->|[e ->]]];
    [|intros [= <- <-]; eapply Hearly; [exact Hl2|by repeat constructor]..].
  rewrite bind_cases.
  destruct (get_dynamodb_table boto3 src_table_name src_profile src_region st8)
    as [x3 st9] eqn:Ht1.
  apply get_dynamodb_table_requests in Ht1 as [Hl3 Hx3]. rewrite Hl2, <- app_assoc in Hl3.
  destruct Hx3 as [->|[->|[e ->]]];
    [|intros [= <- <-]; eapply Hearly; [exact Hl3|by repeat constructor]..].
  rewrite bind_cases.
  destruct (get_dynamodb_table boto3 dest_table_name dest_profile dest_region st9)
    as [x4 st10] eqn:Ht2.
  apply get_dynamodb_table_requests in Ht2 as [Hl4 Hx4]. rewrite Hl3, <- app_assoc in Hl4.
  destruct Hx4 as [->|[->|[e ->]]];
    [|intros [= <- <-]; eapply Hearly; [exact Hl4|by repeat constructor]..].
  rewrite bind_cases.
  destruct (get_dynamodb_items fuel (Table boto3 src_table_name src_profile src_region) st10)
    as [x5 st11] eqn:Hr.
  apply get_dynamodb_items_requests in Hr as (keys & Hl5). rewrite Hl4 in Hl5.
  assert (∀ x : Outcome unit, (x, st11) = (o, st') →
            ∃ pre scans writes,
              requests st' = requests st ++ pre ++ scans ++ writes
              ∧ Forall (λ rq, is_scan rq = false ∧ is_write rq = false) pre
              ∧ (scans = [] ∨
                 ∃ keys, scans
                   = Scan (table_name (Table boto3 src_table_name src_profile src_region)) None
                     :: (Scan (table_name (Table boto3 src_table_name src_profile src_region))
                         ∘ Some <$> keys))
              ∧ (∃ batches,
                   writes = BatchWriteItem
                              (table_name (Table boto3 dest_table_name dest_profile dest_region))
                            <$> batches)
              ∧ (writes ≠ [] → scans ≠ [])) as Hread.
  { intros x [= _ <-].
    exists [GetCallerIdentity src_profile src_region;
            GetCallerIdentity dest_profile dest_region;
            Load (table_name (Table boto3 src_table_name src_profile src_region));
            Load (table_name (Table boto3 dest_table_name dest_profile dest_region))],
           (Scan (table_name (Table boto3 src_table_name src_profile src_region)) None
            :: (Scan (table_name (Table boto3 src_table_name src_profile src_region))
                ∘ Some <$> keys)), [].
    rewrite app_nil_r.
    split_and!; [|by repeat constructor|right; by exists keys|by exists []|done].
    rewrite Hl5. simpl. by rewrite <- !app_assoc. }
  destruct x5 as [items| | |]; [|by apply Hread..].
  intros (batches & Hs & _)%write_items_sends.
  exists [GetCallerIdentity src_profile src_region;
          GetCallerIdentity dest_profile dest_region;
          Load (table_name (Table boto3 src_table_name src_profile src_region));
          Load (table_name (Table boto3 dest_table_name dest_profile dest_region))],
         (Scan (table_name (Table boto3 src_table_name src_profile src_region)) None
          :: (Scan (table_name (Table boto3 src_table_name src_profile src_region))
              ∘ Some <$> keys)),
         (BatchWriteItem (table_name (Table boto3 dest_table_name dest_profile dest_region))
          <$> batches).
  split_and!.
  - rewrite Hs, Hl5. simpl. by rewrite <- !app_assoc.
  - by repeat constructor.
  - right. by exists keys.
  - by exists batches.
  - done.
Qed.

Lemma reads_before_writes_witness :
  ∃ o st',
    copy_test_tables test_service (start_with test_tables) = (o, st')
    ∧ ∃ pre scans writes,
        requests st' = [] ++ pre ++ scans ++ writes
        ∧ Forall (λ rq, is_scan rq = false ∧ is_write rq = false) pre
        ∧ (scans = [] ∨
           ∃ keys, scans = Scan "TEST_SOURCE" None :: (Scan "TEST_SOURCE" ∘ Some <$> keys))
        ∧ (∃ batches, writes = BatchWriteItem "TEST_DESTINATION" <$> batches)
        ∧ (writes ≠ [] → scans ≠ []).
Proof.
  exists (copy_test_tables test_service (start_with test_tables)).1,
         (copy_test_tables test_service (start_with test_tables)).2.
  split; [apply surjective_pairing|].
  apply (reads_before_writes 3 (dynamodb fst test_service)
           "TEST_SOURCE" "default" "us-east-1" "TEST_DESTINATION" "default" "us-east-1"
           (start_with test_tables)
           (copy_test_tables test_service (start_with test_tables)).2
           (copy_test_tables test_service (start_with test_tables)).1).
  apply surjective_pairing.
Defined.

(** ** Errors *)

(** C4, as the code behaves: when the identity check fails with a
    [ClientError] whose code is neither [ExpiredToken] nor
    [InvalidClientTokenId], [validate_aws_credentials] prints nothing and
    returns [None] to [run], which goes on. *)
Theorem validate_swallows_client_error {W Item Cursor} (boto3 : Boto3 W Item Cursor)
    (profile region code : string) (st : State W Item Cursor) (w : W) :
  get_caller_identity boto3 profile region (remote st) = (Failure (ClientError code), w) →
  code ≠ "ExpiredToken" →
  code ≠ "InvalidClientTokenId" →
  validate_aws_credentials boto3 profile region st
  = (Return None,
     {| remote := w; console := console st;
        requests := requests st ++ [GetCallerIdentity profile region] |}).
Proof.
  intros Hsts Hexp Hinv. unfold validate_aws_credentials, call.
  rewrite Hsts. by rewrite !bool_decide_eq_false_2.
Qed.

Lemma validate_swallows_client_error_witness :
  validate_aws_credentials (dynamodb fst denied_service) "default" "us-east-1"
    (start_with test_tables)
  = (Return None,
     {| remote := test_tables; console := [];
        requests := [] ++ [GetCallerIdentity "default" "us-east-1"] |}).
Proof.
  apply (validate_swallows_client_error (dynamodb fst denied_service)
           "default" "us-east-1" "AccessDenied" (start_with test_tables) test_tables).
  - reflexivity.
  - discriminate.
  - discriminate.
Defined.

(** ** A run against the store *)

Section StoreRun.
Context `{Countable Key} {Item : Type} (key_of : Item → Key).
Context (svc : Service).
Implicit Types (st : State (gmap TableId (gmap Key Item)) Item Key).

(** The identity check leaves the tables alone and sends one request; it
    ends the run with the status 1 unless STS gives one of the answers on
    which it returns, and then it prints nothing. *)
Lemma validate_store profile region st x st' :
  validate_aws_credentials (dynamodb key_of svc) profile region st = (x, st') →
  remote st' = remote st
  ∧ requests st' = requests st ++ [GetCallerIdentity profile region]
  ∧ (if validation_returns (caller_identity svc profile region)
     then (∃ a, x = Return a) ∧ console st' = console st
     else exit_status x = Some 1%Z).
Proof.
  unfold validate_aws_credentials, call, bind, print, emit, exit. simpl.
  destruct (caller_identity svc profile region) as [a|e]; simpl.
  - intros [= <- <-]. eauto.
  - destruct e as [code| | |]; repeat case_bool_decide; simpl;
      intros [= <- <-]; simpl; eauto.
Qed.

(** A table that is not there ends the run with the status 1, after the
    lookup and the message. *)
Lemma get_dynamodb_table_missing name profile region st :
  remote st !! ((name, profile, region) : TableId) = None →
  get_dynamodb_table (dynamodb key_of svc) name profile region st
  = (SysExit 1,
     {| remote := remote st;
        console := console st
                   ++ [Echo ("ERROR: count not find the table named '" +:+ name +:+ "'")];
        requests := requests st ++ [Load name] |}).
Proof.
  intros Hid. unfold get_dynamodb_table, call.
  cbn [Table dynamodb dynamodb_table load table_name]. by rewrite Hid.
Qed.

End StoreRun.

(** C3. When the source table does not exist, the run ends with the
    status 1; no scan and no batch write is sent, so that the writer is
    never called, and all tables, the destination among them, are as they
    were.  When both identity checks let the run go on, it ends in
    [get_dynamodb_table] with [exit(1)], and the last line printed says
    that the table could not be found. *)
Theorem missing_source_table `{Countable Key} {Item : Type} (key_of : Item → Key)
    (svc : Service) (fuel : nat)
    (src_table_name src_profile src_region
     dest_table_name dest_profile dest_region : string)
    (st : State (gmap TableId (gmap Key Item)) Item Key) :
  remote st !! ((src_table_name, src_profile, src_region) : TableId) = None →
  ∃ o st',
    run fuel (dynamodb key_of svc) src_table_name src_profile src_region
        dest_table_name dest_profile dest_region st = (o, st')
    ∧ exit_status o = Some 1%Z
    ∧ remote st' = remote st
    ∧ (∃ log, requests st' = requests st ++ log
              ∧ Forall (λ rq, is_write rq = false ∧ is_scan rq = false) log)
    ∧ (validation_returns (caller_identity svc src_profile src_region) = true →
       validation_returns (caller_identity svc dest_profile dest_region) = true →
       o = SysExit 1
       ∧ last (console st')
         = Some (Echo ("ERROR: count not find the table named '"
                       +:+ src_table_name +:+ "'"))).
Proof.
  intros Hmissing. unfold run.
  do 6 (rewrite bind_cases, print_advance).
  rewrite bind_cases.
  match goal with
  | |- context [validate_aws_credentials _ src_profile src_region ?s] =>
      assert (requests s = requests st) as Hlog0 by (simpl; by rewrite !app_nil_r);
      assert (remote s = remote st) as Hrem0 by done;
      destruct (validate_aws_credentials (dynamodb key_of svc) src_profile src_region s)
        as [x1 st1] eqn:Hv1
  end.
  apply validate_store in Hv1 as (Hrem1 & Hlog1 & Hx1).
  rewrite Hrem0 in Hrem1. rewrite Hlog0 in Hlog1.
  destruct (validation_returns (caller_identity svc src_profile src_region)).
  2:{ exists (match x1 with
              | Return _ => OutOfFuel | SysExit c => SysExit c
              | Raise e => Raise e | OutOfFuel => OutOfFuel
              end), st1.
      destruct x1; try done; simpl in Hx1;
        (split_and!; [done|done|done| |done]);
        exists [GetCallerIdentity src_profile src_region];
        (split; [done|by repeat constructor]). }
  destruct Hx1 as [[a ->] Hcon1].
  rewrite bind_cases.
  destruct (validate_aws_credentials (dynamodb key_of svc) dest_profile dest_region st1)
    as [x2 st2] eqn:Hv2.
  apply validate_store in Hv2 as (Hrem2 & Hlog2 & Hx2).
  rewrite Hrem1 in Hrem2. rewrite Hlog1, <- app_assoc in Hlog2.
  destruct (validation_returns (caller_identity svc dest_profile dest_region)).
  2:{ exists (match x2 with
              | Return _ => OutOfFuel | SysExit c => SysExit c
              | Raise e => Raise e | OutOfFuel => OutOfFuel
              end), st2.
      destruct x2; try done; simpl in Hx2;
        (split_and!; [done|done|done| |done]);
        eexists; (split; [exact Hlog2|by repeat constructor]). }
  destruct Hx2 as [[a' ->] Hcon2].
  rewrite bind_cases, get_dynamodb_table_missing by (by rewrite Hrem2).
  eexists _, _. split; [reflexivity|]. simpl.
  split_and!; [done|done| |].
  - eexists. split; [by rewrite Hlog2, <- app_assoc|by repeat constructor].
  - intros _ _. split; [done|]. apply last_snoc.
Qed.

Lemma missing_source_table_witness :
  ∃ o st',
    run 3 (dynamodb fst test_service) "FAKE_TABLE_NAME" "default" "us-east-1"
        "TEST_DESTINATION" "default" "us-east-1" (start_with test_tables) = (o, st')
    ∧ exit_status o = Some 1%Z
    ∧ remote st' = test_tables
    ∧ (∃ log, requests st' = [] ++ log
              ∧ Forall (λ rq, is_write rq = false ∧ is_scan rq = false) log)
    ∧ (validation_returns (caller_identity test_service "default" "us-east-1") = true →
       validation_returns (caller_identity test_service "default" "us-east-1") = true →
       o = SysExit 1
       ∧ last (console st')
         = Some (Echo ("ERROR: count not find the table named '"
                       +:+ "FAKE_TABLE_NAME" +:+ "'"))).
Proof.
  apply (missing_source_table fst test_service 3 "FAKE_TABLE_NAME" "default" "us-east-1"
           "TEST_DESTINATION" "default" "us-east-1" (start_with test_tables)).
  reflexivity.
Defined.

(** ** More on the identity check and the table lookup *)

(** X1. [validate_aws_credentials] makes exactly one request, and it
    prints a line exactly when it ends the run, which it does with the
    status 1: a run that it lets go on has seen no message from it, and an
    exception that it does not handle leaves without a message too. *)
Theorem validate_prints_iff_exits {W Item Cursor} (boto3 : Boto3 W Item Cursor)
    (profile region : string) (st st' : State W Item Cursor)
    (x : Outcome (option string)) :
  validate_aws_credentials boto3 profile region st = (x, st') →
  requests st' = requests st ++ [GetCallerIdentity profile region]
  ∧ ((x = SysExit 1 ∧ ∃ line, console st' = console st ++ [Echo line])
     ∨ (((∃ a, x = Return a) ∨ (∃ e, x = Raise e)) ∧ console st' = console st)).
Proof.
  unfold validate_aws_credentials, call, bind, print, emit, exit.
  destruct (get_caller_identity boto3 profile region (remote st)) as [[a|e] w].
  - intros [= <- <-]. split; [done|]. right. eauto.
  - destruct e as [code| | |]; repeat case_bool_decide; simpl;
      intros [= <- <-]; (split; [done|]); simpl; eauto 8.
Qed.

Lemma validate_prints_iff_exits_witness :
  ∃ x st',
    validate_aws_credentials (dynamodb fst denied_service) "default" "us-east-1"
      (start_with test_tables) = (x, st')
    ∧ requests st' = [] ++ [GetCallerIdentity "default" "us-east-1"]
    ∧ ((x = SysExit 1 ∧ ∃ line, console st' = [] ++ [Echo line])
       ∨ (((∃ a, x = Return a) ∨ (∃ e, x = Raise e)) ∧ console st' = [])).
Proof.
  eexists _, _. split; [reflexivity|].
  apply (validate_prints_iff_exits (dynamodb fst denied_service) "default" "us-east-1"
           (start_with test_tables)).
  reflexivity.
Defined.

(** X2. [get_dynamodb_table] makes exactly one request, the lookup of the
    table, and what it does follows from the answer: when the lookup
    succeeds it returns the table asked for and prints nothing; when the
    lookup fails with [ResourceNotFoundException] it prints the line that
    names the table and ends the run with the status 1; and when the lookup
    fails with any other exception, another [ClientError] among them, that
    exception passes through and nothing is printed. *)
Theorem get_dynamodb_table_by_answer {W Item Cursor} (boto3 : Boto3 W Item Cursor)
    (name profile region : string) (st : State W Item Cursor)
    (r : Result unit) (w : W) :
  load (Table boto3 name profile region) (remote st) = (r, w) →
  ∃ x st',
    get_dynamodb_table boto3 name profile region st = (x, st')
    ∧ remote st' = w
    ∧ requests st' = requests st ++ [Load (table_name (Table boto3 name profile region))]
    ∧ match r with
      | Success _ =>
          x = Return (Table boto3 name profile region) ∧ console st' = console st
      | Failure e =>
          (e = ClientError "ResourceNotFoundException" →
           x = SysExit 1
           ∧ console st'
             = console st
               ++ [Echo ("ERROR: count not find the table named '" +:+ name +:+ "'")])
          ∧ (e ≠ ClientError "ResourceNotFoundException" →
             x = Raise e ∧ console st' = console st)
      end.
Proof.
  intros Hload. unfold get_dynamodb_table, call. rewrite Hload.
  destruct r as [[]|e].
  - eexists _, _. by split_and!.
  - destruct e as [code| | |];
      try (eexists _, _; split_and!; [reflexivity|done|done|done|by intros _]).
    destruct (decide (code = "ResourceNotFoundException")) as [->|Hne].
    + eexists _, _. split_and!; [reflexivity|done|done|by intros _|done].
    + rewrite bool_decide_eq_false_2 by done.
      eexists _, _. split_and!; [reflexivity|done|done| |by intros _].
      intros [= ?]. done.
Qed.

Lemma get_dynamodb_table_by_answer_witness :
  ∃ x st',
    get_dynamodb_table (dynamodb fst test_service) "FAKE_TABLE_NAME" "default" "us-east-1"
      (start_with test_tables) = (x, st')
    ∧ remote st' = test_tables
    ∧ requests st' = [] ++ [Load "FAKE_TABLE_NAME"]
    ∧ (ClientError "ResourceNotFoundException" = ClientError "ResourceNotFoundException" →
       x = SysExit 1
       ∧ console st'
         = [] ++ [Echo ("ERROR: count not find the table named '"
                        +:+ "FAKE_TABLE_NAME" +:+ "'")])
    ∧ (ClientError "ResourceNotFoundException" ≠ ClientError "ResourceNotFoundException" →
       x = Raise (ClientError "ResourceNotFoundException") ∧ console st' = []).
Proof.
  apply (get_dynamodb_table_by_answer (dynamodb fst test_service)
           "FAKE_TABLE_NAME" "default" "us-east-1" (start_with test_tables)
           (Failure (ClientError "ResourceNotFoundException")) test_tables).
  reflexivity.
Defined.

(** ** More on the reader *)

Section ReaderFailures.
Context {W Item Cursor : Type}.
Implicit Types (t : TableResource W Item Cursor) (st : State W Item Cursor).
Implicit Types (rs : list (ScanResponse Item Cursor)).

Lemma scan_loop_breaks t rs : ∀ key fuel items bar st e w',
  scan_breaks t (Some key) (remote st) rs e w' →
  length rs < fuel →
  scan_loop fuel t items (Some key) bar st
  = (Raise e,
     advance st w' (chain_bars (message bar) (index bar) rs)
       (chain_requests (table_name t) (Some key) rs
        ++ [Scan (table_name t) (chain_end (Some key) rs)])).
Proof.
  induction rs as [|r rs IH]; intros key fuel items bar st e w' Hbreak Hfuel;
    (destruct fuel as [|fuel]; [simpl in Hfuel; lia|]); simpl scan_loop;
    inversion Hbreak as [? ? ? ? Hscan | ? ? ? w1 key' ? ? ? Hscan Hnext Hrest]; subst.
  - rewrite bind_cases. by erewrite call_failure by done.
  - rewrite bind_cases. erewrite call_success by done.
    rewrite bind_cases, bar_next_advance, Hnext.
    rewrite (IH key' fuel _ _ _ e w'); [|done|simpl in Hfuel; lia].
    simpl. rewrite !advance_advance, Hnext. simpl. done.
Qed.

Lemma with_counter_raise {A} msg (body : Counter → M W Item Cursor A) st e st' :
  body {| message := msg; index := 0 |} st = (Raise e, st') →
  with_counter msg body st = (Raise e, advance st' (remote st') [BarFinish] []).
Proof.
  intros E. unfold with_counter, finally. rewrite E, emit_advance. done.
Qed.

Lemma get_dynamodb_items_breaks t rs fuel st e w' :
  scan_breaks t None (remote st) rs e w' →
  length rs ≤ fuel →
  get_dynamodb_items fuel t st
  = (Raise e,
     advance st w' (chain_bars (download_msg t) 0 rs ++ [BarFinish])
       (chain_requests (table_name t) None rs
        ++ [Scan (table_name t) (chain_end None rs)])).
Proof.
  intros Hbreak Hfuel. unfold get_dynamodb_items.
  inversion Hbreak as [? ? ? ? Hscan | ? ? r w1 key rs' ? ? Hscan Hnext Hrest]; subst.
  - erewrite with_counter_raise.
    2:{ rewrite bind_cases. by erewrite call_failure by done. }
    by rewrite advance_advance.
  - erewrite with_counter_raise.
    2:{ rewrite bind_cases. erewrite call_success by done.
        rewrite bind_cases, bar_next_advance, Hnext, bind_cases.
        erewrite scan_loop_breaks; [reflexivity|done|simpl in Hfuel; lia]. }
    simpl. rewrite !advance_advance, Hnext. simpl. by rewrite <- !app_assoc.
Qed.

(** While every scan comes with a cursor the loop goes on: whatever the
    fuel, it is used up, on one scan per unit. *)
Lemma scan_loop_endless t :
  (∀ start w, ∃ r w', scan t start w = (Success r, w')
                      ∧ is_Some (LastEvaluatedKey r)) →
  ∀ fuel items key bar st,
    ∃ st', scan_loop fuel t items (Some key) bar st = (OutOfFuel, st')
           ∧ length (requests st') = length (requests st) + fuel.
Proof.
  intros Hendless. induction fuel as [|fuel IH]; intros items key bar st.
  - exists st. split; [done|lia].
  - simpl. destruct (Hendless (Some key) (remote st)) as (r & w' & Hscan & [key' Hkey]).
    rewrite bind_cases. erewrite call_success by done.
    rewrite bind_cases, bar_next_advance, Hkey.
    edestruct IH as (st' & Hloop & Hlen). rewrite Hloop.
    exists st'. split; [done|]. rewrite Hlen. unfold advance. simpl.
    rewrite !length_app. simpl. lia.
Qed.

End ReaderFailures.

(** X3. When a scan fails, after any number of pages, [get_dynamodb_items]
    ends with the exception of that scan: the items of the pages read so
    far are not returned, no scan follows the failed one, and the counter,
    which has counted the pages read, is finished once, by the exit of its
    [with] block. *)
Theorem get_dynamodb_items_read_error {W Item Cursor}
    (t : TableResource W Item Cursor) (rs : list (ScanResponse Item Cursor))
    (fuel : nat) (st : State W Item Cursor) (e : Exn) (w' : W) :
  scan_breaks t None (remote st) rs e w' →
  length rs ≤ fuel →
  get_dynamodb_items fuel t st
  = (Raise e,
     {| remote := w';
        console := console st ++ chain_bars (download_msg t) 0 rs ++ [BarFinish];
        requests := requests st ++ chain_requests (table_name t) None rs
                    ++ [Scan (table_name t) (chain_end None rs)] |}).
Proof. apply get_dynamodb_items_breaks. Qed.

Lemma get_dynamodb_items_read_error_witness :
  get_dynamodb_items 1 broken_table (start_with tt)
  = (Raise (ClientError "ProvisionedThroughputExceededException"),
     {| remote := tt;
        console := [] ++ chain_bars (download_msg broken_table) 0
                           [ {| Items := [7]; Count := 1; LastEvaluatedKey := Some 7 |} ]
                   ++ [BarFinish];
        requests := [] ++ chain_requests "BROKEN" None
                            [ {| Items := [7]; Count := 1; LastEvaluatedKey := Some 7 |} ]
                    ++ [Scan "BROKEN" (Some 7)] |}).
Proof.
  apply (get_dynamodb_items_read_error broken_table
           [ {| Items := [7]; Count := 1; LastEvaluatedKey := Some 7 |} ] 1
           (start_with tt)).
  - eapply scan_breaks_later; [reflexivity|reflexivity|].
    apply scan_breaks_now. reflexivity.
  - simpl. lia.
Defined.

(** X4. The loop of [get_dynamodb_items] has no bound of its own: on a
    table whose scans always come with a cursor it never returns; with
    [fuel] turns of the loop allowed it has sent [fuel + 1] scans and is
    still not done. *)
Theorem get_dynamodb_items_endless {W Item Cursor}
    (t : TableResource W Item Cursor) (fuel : nat) (st : State W Item Cursor) :
  (∀ start w, ∃ r w', scan t start w = (Success r, w')
                      ∧ is_Some (LastEvaluatedKey r)) →
  ∃ st', get_dynamodb_items fuel t st = (OutOfFuel, st')
         ∧ length (requests st') = length (requests st) + S fuel.
Proof.
  intros Hendless. unfold get_dynamodb_items, with_counter, finally.
  destruct (Hendless None (remote st)) as (r & w' & Hscan & [key Hkey]).
  rewrite bind_cases. erewrite call_success by done.
  rewrite bind_cases, bar_next_advance, Hkey, bind_cases.
  edestruct (scan_loop_endless t Hendless fuel) as (st' & Hloop & Hlen).
  rewrite Hloop. exists st'. split; [done|].
  rewrite Hlen. unfold advance. simpl. rewrite !length_app. simpl. lia.
Qed.

Lemma get_dynamodb_items_endless_witness :
  ∃ st', get_dynamodb_items 5 endless_table (start_with tt) = (OutOfFuel, st')
         ∧ length (requests st') = 0 + 6.
Proof.
  apply (get_dynamodb_items_endless endless_table 5 (start_with tt)).
  intros start w. eexists _, _. split; [reflexivity|]. by eexists.
Defined.

(** ** More on the writer *)

Section WriterFailures.
Context {W Item Cursor : Type}.
Implicit Types (t : TableResource W Item Cursor) (st : State W Item Cursor).
Implicit Types (buf items : list Item) (bs : list (list Item)).

Lemma accepted_app t w bs1 w1 bs2 w2 :
  accepted t w bs1 w1 → accepted t w1 bs2 w2 → accepted t w (bs1 ++ bs2) w2.
Proof.
  induction 1 as [|w b u w' bs w'' Hcall _ IH]; intros H2; [done|].
  simpl. eapply accepted_cons; [done|]. by apply IH.
Qed.

(** A step that sends nothing. *)
Lemma written_silent {A} t st st' (a : A) :
  remote st' = remote st → requests st' = requests st →
  written t st st' (Return a).
Proof.
  intros Hrem Hreq. exists []. split.
  - unfold sends. simpl. by rewrite app_nil_r.
  - rewrite Hrem. constructor.
Qed.

Lemma written_advance {A} t st out (a : A) :
  written t st (advance st (remote st) out []) (Return a).
Proof. exists []. split; [done|constructor]. Qed.

(** What a step does after batches that were accepted. *)
Lemma written_step {A B} t st st1 st' (a : A) (x : Outcome B) :
  written t st st1 (Return a) → written t st1 st' x → written t st st' x.
Proof.
  intros (bs1 & Hs1 & Hacc1). unfold sends in Hs1.
  destruct x as [b|c|e|]; simpl; [|done| |].
  - intros (bs & Hs & Hacc). exists (bs1 ++ bs). split.
    + by eapply sends_trans.
    + by eapply accepted_app.
  - intros (bs & b & w1 & Hreq & Hacc & Hcall). exists (bs1 ++ bs), b, w1.
    split_and!; [|by eapply accepted_app|done].
    by rewrite Hreq, Hs1, !fmap_app, !app_assoc.
  - intros (bs & Hs & Hacc). exists (bs1 ++ bs). split.
    + by eapply sends_trans.
    + by eapply accepted_app.
Qed.

(** What the exit of a [with] block adds: nothing for the table. *)
Lemma written_frame {A} t st st1 st' (x : Outcome A) :
  written t st st1 x → remote st' = remote st1 → requests st' = requests st1 →
  written t st st' x.
Proof.
  intros Hw Hrem Hreq. destruct x as [a|c|e|]; simpl in *; [|done| |].
  - destruct Hw as (bs & Hs & Hacc). exists bs. unfold sends in *.
    by rewrite Hrem, Hreq.
  - destruct Hw as (bs & b & w1 & Hlog & Hacc & Hcall). exists bs, b, w1.
    by rewrite Hrem, Hreq.
  - destruct Hw as (bs & Hs & Hacc). exists bs. unfold sends in *.
    by rewrite Hrem, Hreq.
Qed.

Lemma flush_written t buf st x st' :
  flush t buf st = (x, st') → written t st st' x.
Proof.
  unfold flush. rewrite bind_cases. unfold call.
  destruct (batch_write_item t _ (remote st)) as [[unprocessed|e] w] eqn:E;
    intros [= <- <-]; simpl.
  - exists [take (flush_amount t) buf]. split; [done|].
    eapply accepted_cons; [exact E|constructor].
  - exists [], (take (flush_amount t) buf), (remote st).
    split_and!; [done|constructor|done].
Qed.

Lemma put_item_written t buf item st x st' :
  put_item t buf item st = (x, st') → written t st st' x.
Proof.
  unfold put_item. case_bool_decide.
  - apply flush_written.
  - intros [= <- <-]. by apply written_silent.
Qed.

Lemma put_loop_written t items : ∀ buf bar st x st',
  put_loop t items buf bar st = (x, st') → written t st st' x.
Proof.
  induction items as [|item items IH]; intros buf bar st x st'.
  - intros [= <- <-]. by apply written_silent.
  - simpl. rewrite bind_cases.
    destruct (put_item t buf item st) as [x1 st1] eqn:E1.
    apply put_item_written in E1.
    destruct x1 as [buf1|c|e|]; [|done|by intros [= <- <-]|by intros [= <- <-]].
    rewrite bind_cases, bar_next_advance.
    intros Hrest%IH. eapply written_step; [exact E1|].
    eapply written_step; [|exact Hrest].
    apply (written_advance t _ _ tt).
Qed.

Lemma flush_all_written t fuel : ∀ buf st x st',
  flush_all fuel t buf st = (x, st') → written t st st' x.
Proof.
  induction fuel as [|fuel IH]; intros buf st x st'.
  - destruct buf; intros [= <- <-]; by apply (written_silent t _ _ tt).
  - destruct buf as [|item buf]; [intros [= <- <-]; by apply written_silent|].
    simpl. rewrite bind_cases.
    destruct (flush t (item :: buf) st) as [x1 st1] eqn:E1.
    apply flush_written in E1.
    destruct x1 as [buf1|c|e|]; [|done|by intros [= <- <-]|by intros [= <- <-]].
    intros Hrest%IH. by eapply written_step.
Qed.

End WriterFailures.

(** X5. The table's answers decide how [write_items_to_dyanmodb_table]
    ends.  Every batch it sends but the last has been accepted by the
    table; and a batch that the table refuses is fatal: the writer then ends
    with the exception of that batch, which is the last request it has sent,
    and leaves the remote side as the refusal left it, the batches accepted
    before not taken back and the items still buffered not sent.  So the
    writer returns only when all its batches were accepted, and it never
    ends the run with [exit]. *)
Theorem write_error_is_fatal {W Item Cursor} (fuel : nat) (items : list Item)
    (t : TableResource W Item Cursor) (st st' : State W Item Cursor)
    (o : Outcome unit) :
  write_items_to_dyanmodb_table fuel items t st = (o, st') →
  match o with
  | Return _ | OutOfFuel =>
      ∃ batches,
        requests st' = requests st ++ (BatchWriteItem (table_name t) <$> batches)
        ∧ accepted t (remote st) batches (remote st')
  | Raise e =>
      ∃ batches b w1,
        requests st'
        = requests st ++ (BatchWriteItem (table_name t) <$> batches ++ [b])
        ∧ accepted t (remote st) batches w1
        ∧ batch_write_item t b w1 = (Failure e, remote st')
  | SysExit _ => False
  end.
Proof.
  intros Hrun. cut (written t st st' o); [by destruct o|]. revert Hrun.
  unfold write_items_to_dyanmodb_table, with_batch_writer.
  rewrite bind_cases, bind_cases.
  match goal with |- context [with_counter ?msg ?body st] =>
    destruct (with_counter msg body st) as [x2 st2] eqn:E2 end.
  apply with_counter_inv in E2 as (st3 & E3 & Hrem32 & Hreq32).
  apply put_loop_written in E3.
  pose proof (written_frame _ _ _ _ _ E3 Hrem32 Hreq32) as Hloop.
  destruct x2 as [r|c|e|]; [|done|by intros [= <- <-]|by intros [= <- <-]].
  unfold bar_finish. rewrite bind_cases, emit_advance. unfold ret.
  intros Hrest%flush_all_written.
  eapply written_step; [exact Hloop|].
  eapply written_step; [|exact Hrest].
  apply (written_advance t _ _ tt).
Qed.

Lemma write_error_is_fatal_witness :
  ∃ batches b w1,
    requests (write_items_to_dyanmodb_table 1 [1; 2; 3] broken_table (start_with tt)).2
    = [] ++ (BatchWriteItem "BROKEN" <$> batches ++ [b])
    ∧ accepted broken_table tt batches w1
    ∧ batch_write_item broken_table b w1
      = (Failure (ClientError "ValidationException"), tt).
Proof.
  apply (write_error_is_fatal 1 [1; 2; 3] broken_table (start_with tt)
           (write_items_to_dyanmodb_table 1 [1; 2; 3] broken_table (start_with tt)).2
           (Raise (ClientError "ValidationException"))).
  reflexivity.
Defined.

(** ** The batches that reach the store *)

Section StoreBatches.
Context `{Countable Key} {Item : Type} (key_of : Item → Key).
Context (svc : Service) (name profile region : string).
Implicit Types (content : gmap Key Item) (items buf : list Item).
Implicit Types (st : State (gmap TableId (gmap Key Item)) Item Key).

Let id : TableId := (name, profile, region).
Let t := dynamodb_table key_of svc name profile region.

(** The loop on the store sends full batches only, keeps less than a
    batch in the buffer, and draws the counter once per item. *)
Lemma put_loop_store_log items : ∀ buf bar st content,
  0 < batch_limit svc →
  remote st !! id = Some content →
  length buf < batch_limit svc →
  ∃ buf' bar' st' content' full,
    put_loop t items buf bar st = (Return (buf', bar'), st')
    ∧ length buf' < batch_limit svc
    ∧ remote st' !! id = Some content'
    ∧ requests st' = requests st ++ (BatchWriteItem name <$> full)
    ∧ Forall (λ b, length b = batch_limit svc) full
    ∧ concat full ++ buf' = buf ++ items
    ∧ console st'
      = console st ++ (Bar (message bar) <$> seq (S (index bar)) (length items)).
Proof.
  induction items as [|item items IH]; intros buf bar st content Hpos Hid Hbuf.
  - exists buf, bar, st, content, []. simpl. rewrite !app_nil_r.
    by split_and!.
  - simpl put_loop. unfold put_item.
    assert (length (buf ++ [item]) = S (length buf)) as Hlen
      by (rewrite length_app; simpl; lia).
    case_bool_decide as Hfull; simpl in Hfull.
    + erewrite bind_return by (by apply flush_store).
      erewrite bind_return by apply bar_next_advance.
      rewrite take_ge, drop_ge by (simpl; lia).
      match goal with |- context [put_loop t items ?b ?br ?s] =>
        destruct (IH b br s (foldl (upsert key_of) content (buf ++ [item]))) as
          (buf' & bar' & st' & content' & full & Hrun & Hlen' & Hrem & Hreq & Hall & Hcat & Hcon)
      end; [done|simpl; apply lookup_insert_eq|simpl; lia|].
      exists buf', bar', st', content', ((buf ++ [item]) :: full).
      split_and!; [exact Hrun|done|done| | | |].
      * rewrite Hreq. simpl. by rewrite app_nil_r, <- app_assoc.
      * constructor; [lia|done].
      * simpl. rewrite <- app_assoc, Hcat. simpl. by rewrite <- app_assoc.
      * rewrite Hcon. simpl. rewrite app_nil_r, <- app_assoc. simpl.
        by replace (index bar + 1) with (S (index bar)) by lia.
    + erewrite bind_return by reflexivity.
      erewrite bind_return by apply bar_next_advance.
      match goal with |- context [put_loop t items ?b ?br ?s] =>
        destruct (IH b br s content) as
          (buf' & bar' & st' & content' & full & Hrun & Hlen' & Hrem & Hreq & Hall & Hcat & Hcon)
      end; [done|exact Hid|lia|].
      exists buf', bar', st', content', full.
      split_and!; [exact Hrun|done|done| |done| |].
      * rewrite Hreq. simpl. by rewrite app_nil_r.
      * rewrite Hcat. by rewrite <- app_assoc.
      * rewrite Hcon. simpl. rewrite <- app_assoc. simpl.
        by replace (index bar + 1) with (S (index bar)) by lia.
Qed.

Lemma ceil_div_exact (n k r : nat) :
  0 < n → r < n → ceil_div (n * k + r) n = k + (match r with O => 0 | S _ => 1 end).
Proof.
  intros Hn Hr. unfold ceil_div. destruct r as [|r].
  - rewrite !Nat.add_0_r. symmetry. apply (Nat.div_unique _ n k (n - 1)); lia.
  - symmetry. apply (Nat.div_unique _ n (k + 1) r); lia.
Qed.

Lemma full_batches_length {A} (n : nat) (full : list (list A)) :
  Forall (λ b, length b = n) full → length (concat full) = n * length full.
Proof.
  induction 1 as [|b full Hb _ IH]; simpl; [lia|]. rewrite length_app. lia.
Qed.

(** The writer on the store, with what it sends and shows. *)
Lemma write_items_store_log fuel items st content :
  0 < batch_limit svc →
  0 < fuel →
  remote st !! id = Some content →
  ∃ st' full rest,
    write_items_to_dyanmodb_table fuel items t st = (Return tt, st')
    ∧ requests st'
      = requests st
        ++ (BatchWriteItem name <$> full ++ match rest with [] => [] | _ => [rest] end)
    ∧ Forall (λ b, length b = batch_limit svc) full
    ∧ length rest < batch_limit svc
    ∧ concat full ++ rest = items
    ∧ console st'
      = console st
        ++ (Bar ("Writing " +:+ format_thousands (length items) +:+ " items to "
                 +:+ name +:+ ": ")
            <$> seq 1 (length items))
        ++ [BarFinish; BarFinish].
Proof.
  intros Hpos Hfuel Hid.
  unfold write_items_to_dyanmodb_table, with_batch_writer.
  match goal with |- context [with_counter ?msg _] => set (msg0 := msg) end.
  destruct (put_loop_store_log items [] {| message := msg0; index := 0 |} st content)
    as (buf' & bar' & st1 & content' & full & Hrun & Hlen & Hrem & Hreq & Hall & Hcat & Hcon);
    [done|done|simpl; lia|].
  erewrite bind_return.
  2:{ erewrite bind_return by (apply with_counter_return; exact Hrun).
      unfold bar_finish. erewrite bind_return by apply emit_advance. reflexivity. }
  simpl in Hcat, Hcon. simpl.
  destruct fuel as [|fuel]; [lia|].
  exists (match buf' with
          | [] => advance (advance st1 (remote st1) [BarFinish] [])
                    (remote st1) [BarFinish] []
          | _ :: _ =>
              advance (advance (advance st1 (remote st1) [BarFinish] [])
                         (remote st1) [BarFinish] [])
                (<[id := foldl (upsert key_of) content' buf']> (remote st1))
                [] [BatchWriteItem name buf']
          end), full, buf'.
  destruct buf' as [|item buf'].
  - split_and!; [done| |done|done|done|].
    + simpl. rewrite !app_nil_r. exact Hreq.
    + simpl. rewrite Hcon. by rewrite <- !app_assoc.
  - simpl flush_all.
    erewrite bind_return by (by apply (flush_store _ _ _ _ _ _ _ content')).
    rewrite take_ge, drop_ge by lia. unfold t. rewrite flush_all_nil.
    split_and!; [done| |done|done|done|].
    + simpl. rewrite !app_nil_r, Hreq, fmap_app. by rewrite <- !app_assoc.
    + simpl. rewrite !app_nil_r, Hcon. by rewrite <- !app_assoc.
Qed.

End StoreBatches.

(** X6. On a table of the store, [write_items_to_dyanmodb_table] returns
    and has sent the items cut into batches in their order: every batch
    but the last has exactly [batch_limit] items, the last one has at least
    one and at most that many, and the number of batches is exactly
    [ceil(|S| / batch_limit)]. *)
Theorem store_batches_are_chunks `{Countable Key} {Item : Type} (key_of : Item → Key)
    (svc : Service) (name profile region : string) (fuel : nat) (items : list Item)
    (st : State (gmap TableId (gmap Key Item)) Item Key) (content : gmap Key Item) :
  0 < batch_limit svc →
  0 < fuel →
  remote st !! ((name, profile, region) : TableId) = Some content →
  ∃ st' batches,
    write_items_to_dyanmodb_table fuel items
      (dynamodb_table key_of svc name profile region) st = (Return tt, st')
    ∧ requests st' = requests st ++ (BatchWriteItem name <$> batches)
    ∧ concat batches = items
    ∧ Forall (λ b, 0 < length b ≤ batch_limit svc) batches
    ∧ (∀ i b, batches !! i = Some b → S i < length batches →
              length b = batch_limit svc)
    ∧ length batches = ceil_div (length items) (batch_limit svc).
Proof.
  intros Hpos Hfuel Hid.
  destruct (write_items_store_log key_of svc name profile region fuel items st content)
    as (st' & full & rest & Hrun & Hreq & Hall & Hrest & Hcat & _); [done..|].
  exists st', (full ++ match rest with [] => [] | _ => [rest] end).
  assert (length items = batch_limit svc * length full + length rest) as Hlen.
  { rewrite <- Hcat, length_app. f_equal. by apply full_batches_length. }
  split_and!; [done|done| | | |].
  - rewrite concat_app, <- Hcat. f_equal. destruct rest; simpl; [done|].
    by rewrite app_nil_r.
  - apply Forall_app. split.
    + eapply Forall_impl; [exact Hall|]. simpl. lia.
    + destruct rest; [by constructor|].
      constructor; [simpl in *; lia|constructor].
  - intros i b Hb Hi.
    assert (i < length full) as Hfull.
    { rewrite length_app in Hi. destruct rest; simpl in Hi; lia. }
    rewrite lookup_app_l in Hb by done.
    by apply (proj1 (Forall_lookup _ _) Hall i b).
  - rewrite Hlen, ceil_div_exact, length_app by done.
    by destruct rest.
Qed.

Lemma store_batches_are_chunks_witness :
  ∃ st' batches,
    write_items_to_dyanmodb_table 1 three_items test_dest (start_with test_tables)
    = (Return tt, st')
    ∧ requests st' = [] ++ (BatchWriteItem "TEST_DESTINATION" <$> batches)
    ∧ concat batches = three_items
    ∧ Forall (λ b, 0 < length b ≤ 2) batches
    ∧ (∀ i b, batches !! i = Some b → S i < length batches → length b = 2)
    ∧ length batches = ceil_div 3 2.
Proof.
  apply (store_batches_are_chunks fst test_service "TEST_DESTINATION" "default" "us-east-1"
           1 three_items (start_with test_tables) ∅).
  - simpl. lia.
  - lia.
  - reflexivity.
Defined.

(** X7. On a table of the store the writer draws its counter once per item
    handed to the batch writer, counting 1, 2, ... up to the number of
    items, under a message that gives that number from the start; the
    counter is then finished twice, by the exit of its [with] block and by
    the call of [bar.finish()] after it. *)
Theorem writer_counts_every_item `{Countable Key} {Item : Type} (key_of : Item → Key)
    (svc : Service) (name profile region : string) (fuel : nat) (items : list Item)
    (st : State (gmap TableId (gmap Key Item)) Item Key) (content : gmap Key Item) :
  0 < batch_limit svc →
  0 < fuel →
  remote st !! ((name, profile, region) : TableId) = Some content →
  ∃ st',
    write_items_to_dyanmodb_table fuel items
      (dynamodb_table key_of svc name profile region) st = (Return tt, st')
    ∧ console st'
      = console st
        ++ (Bar ("Writing " +:+ format_thousands (length items) +:+ " items to "
                 +:+ name +:+ ": ")
            <$> seq 1 (length items))
        ++ [BarFinish; BarFinish].
Proof.
  intros Hpos Hfuel Hid.
  destruct (write_items_store_log key_of svc name profile region fuel items st content)
    as (st' & full & rest & Hrun & _ & _ & _ & _ & Hcon); [done..|].
  by exists st'.
Qed.

Lemma writer_counts_every_item_witness :
  ∃ st',
    write_items_to_dyanmodb_table 1 three_items test_dest (start_with test_tables)
    = (Return tt, st')
    ∧ console st'
      = [] ++ (Bar ("Writing " +:+ format_thousands 3 +:+ " items to "
                    +:+ "TEST_DESTINATION" +:+ ": ")
               <$> seq 1 3)
        ++ [BarFinish; BarFinish].
Proof.
  apply (writer_counts_every_item fst test_service "TEST_DESTINATION" "default" "us-east-1"
           1 three_items (start_with test_tables) ∅).
  - simpl. lia.
  - lia.
  - reflexivity.
Defined.

(** ** A whole run against the store *)

Section StoreCopy.
Context `{Countable Key} {Item : Type} (key_of : Item → Key).
Context (svc : Service).
Implicit Types (content S D : gmap Key Item) (items : list Item).
Implicit Types (st : State (gmap TableId (gmap Key Item)) Item Key).

Lemma latest_Some items k :
  NoDup (key_of <$> items) →
  ∀ x, latest key_of k items = Some x ↔ x ∈ items ∧ key_of x = k.
Proof.
  induction items as [|y items IH]; simpl; intros Hnodup x.
  - split; [done|]. by intros [?%elem_of_nil _].
  - apply NoDup_cons in Hnodup as [Hy Hnodup]. specialize (IH Hnodup).
    destruct (latest key_of k items) as [z|] eqn:Hz.
    + destruct (proj1 (IH z) eq_refl) as [Hzin Hzk]. split.
      * intros [= ->]. split; [by right|done].
      * intros [[->|Hin]%elem_of_cons Hk].
        -- exfalso. apply Hy. rewrite Hk, <- Hzk. by apply list_elem_of_fmap_2.
        -- by apply IH.
    + case_bool_decide as Hk.
      * split.
        -- intros [= ->]. split; [by left|done].
        -- intros [[->|Hin]%elem_of_cons Hx]; [done|].
           by pose proof (proj2 (IH x) (conj Hin Hx)).
      * split; [done|].
        intros [[->|Hin]%elem_of_cons Hx]; [done|].
        by pose proof (proj2 (IH x) (conj Hin Hx)).
Qed.

Lemma latest_scan_order S k :
  well_keyed key_of S → latest key_of k (scan_order S) = S !! k.
Proof.
  intros Hwk.
  pose proof (latest_Some (scan_order S) k (scan_order_keys _ _ Hwk)) as Hlatest.
  destruct (S !! k) as [x|] eqn:Hk.
  - apply Hlatest. split; [|by apply Hwk].
    unfold scan_order. apply list_elem_of_fmap. exists (k, x).
    split; [done|]. by apply elem_of_map_to_list.
  - destruct (latest key_of k (scan_order S)) as [x|] eqn:Hx; [|done].
    destruct (proj1 (Hlatest x) eq_refl) as [Hin Hkx].
    unfold scan_order in Hin. apply list_elem_of_fmap in Hin as ([k' x'] & -> & Hin).
    apply elem_of_map_to_list in Hin. simpl in *.
    rewrite (Hwk _ _ Hin) in Hkx. congruence.
Qed.

(** Writing the items of a table over another one: the items of the first
    table, and those of the second whose keys the first does not have. *)
Lemma upsert_scan_order S D :
  well_keyed key_of S → foldl (upsert key_of) D (scan_order S) = S ∪ D.
Proof.
  intros Hwk. apply map_eq. intros k.
  rewrite upsert_all_lookup, latest_scan_order by done.
  destruct (S !! k) as [x|] eqn:Hk.
  - symmetry. by apply lookup_union_Some_l.
  - symmetry. by rewrite lookup_union_r.
Qed.

Lemma get_dynamodb_table_found name profile region st content :
  remote st !! ((name, profile, region) : TableId) = Some content →
  get_dynamodb_table (dynamodb key_of svc) name profile region st
  = (Return (dynamodb_table key_of svc name profile region),
     advance st (remote st) [] [Load name]).
Proof.
  intros Hid. unfold get_dynamodb_table.
  erewrite call_success; [done|].
  cbn [Table dynamodb dynamodb_table load table_name]. by rewrite Hid.
Qed.

End StoreCopy.

(** X8. The whole copy.  When both identity checks let the run go on, both
    tables exist and the source table fits the fuel, [run] returns, so that
    the process ends with the status 0, and the destination table then
    holds every item of the source table, next to those of its own items
    whose keys the source does not have; no other table has changed.  In
    particular a table copied onto itself is left as it was. *)
Theorem run_copies_table `{Countable Key} {Item : Type} (key_of : Item → Key)
    (svc : Service) (fuel : nat)
    (src_table_name src_profile src_region
     dest_table_name dest_profile dest_region : string)
    (st : State (gmap TableId (gmap Key Item)) Item Key) (S D : gmap Key Item) :
  validation_returns (caller_identity svc src_profile src_region) = true →
  validation_returns (caller_identity svc dest_profile dest_region) = true →
  remote st !! ((src_table_name, src_profile, src_region) : TableId) = Some S →
  remote st !! ((dest_table_name, dest_profile, dest_region) : TableId) = Some D →
  well_keyed key_of S →
  0 < page_limit svc →
  0 < batch_limit svc →
  0 < fuel →
  size S ≤ fuel →
  ∃ st',
    run fuel (dynamodb key_of svc) src_table_name src_profile src_region
        dest_table_name dest_profile dest_region st = (Return tt, st')
    ∧ exit_status (Return (A:=unit) tt) = Some 0%Z
    ∧ remote st'
      = <[((dest_table_name, dest_profile, dest_region) : TableId) := S ∪ D]> (remote st)
    ∧ ((src_table_name, src_profile, src_region)
       = (dest_table_name, dest_profile, dest_region) → remote st' = remote st).
Proof.
  intros Hvsrc Hvdest HS HD Hwk Hpage Hbatch Hfuel Hsize. unfold run.
  do 6 (rewrite bind_cases, print_advance).
  rewrite bind_cases.
  match goal with
  | |- context [validate_aws_credentials _ src_profile src_region ?s] =>
      assert (remote s = remote st) as Hrem0 by done;
      destruct (validate_aws_credentials (dynamodb key_of svc) src_profile src_region s)
        as [x1 st1] eqn:Hv1
  end.
  apply validate_store in Hv1 as (Hrem1 & _ & Hx1).
  rewrite Hvsrc in Hx1. destruct Hx1 as [[a ->] _]. rewrite Hrem0 in Hrem1.
  rewrite bind_cases.
  destruct (validate_aws_credentials (dynamodb key_of svc) dest_profile dest_region st1)
    as [x2 st2] eqn:Hv2.
  apply validate_store in Hv2 as (Hrem2 & _ & Hx2).
  rewrite Hvdest in Hx2. destruct Hx2 as [[a' ->] _]. rewrite Hrem1 in Hrem2.
  rewrite bind_cases, (get_dynamodb_table_found _ _ _ _ _ _ S) by (by rewrite Hrem2).
  rewrite bind_cases, (get_dynamodb_table_found _ _ _ _ _ _ D) by (simpl; by rewrite Hrem2).
  rewrite bind_cases.
  match goal with |- context [get_dynamodb_items fuel _ ?s] =>
    destruct (get_dynamodb_items_store key_of svc src_table_name src_profile src_region
                fuel S s) as (st5 & Hread & Hrem5)
  end.
  { done. }
  { simpl. by rewrite Hrem2. }
  { done. }
  { unfold scan_order. by rewrite length_fmap, length_map_to_list. }
  rewrite Hread. simpl in Hrem5. rewrite Hrem2 in Hrem5.
  destruct (write_items_store key_of svc dest_table_name dest_profile dest_region
              fuel (scan_order S) st5 D) as (st6 & Hwrite & Hrem6).
  { done. }
  { done. }
  { by rewrite Hrem5. }
  exists st6. rewrite Hrem6, Hrem5, upsert_scan_order by done.
  split_and!; [done|done|done|].
  intros Hsame. rewrite Hsame in HS.
  assert (S = D) as -> by congruence.
  rewrite (idemp_L (∪) D). by apply insert_id.
Qed.

Lemma three_items_keys : NoDup (fst <$> three_items).
Proof.
  vm_compute. repeat (apply NoDup_cons; split; [set_solver|]). apply NoDup_nil_2.
Qed.

Lemma three_items_size : size (foldl (upsert fst) (∅ : gmap string _) three_items) ≤ 3.
Proof.
  rewrite <- length_map_to_list, <- (length_fmap snd).
  change ((map_to_list ?m).*2) with (scan_order m).
  rewrite (upsert_all_fresh fst three_items ∅ three_items_keys) by done.
  unfold scan_order. by rewrite map_to_list_empty.
Qed.

Lemma run_copies_table_witness :
  ∃ st',
    copy_test_tables test_service (start_with test_tables) = (Return tt, st')
    ∧ exit_status (Return (A:=unit) tt) = Some 0%Z
    ∧ remote st'
      = <[dest_id := foldl (upsert fst) ∅ three_items ∪ ∅]> test_tables
    ∧ (src_id = dest_id → remote st' = test_tables).
Proof.
  apply (run_copies_table fst test_service 3
           "TEST_SOURCE" "default" "us-east-1" "TEST_DESTINATION" "default" "us-east-1"
           (start_with test_tables) (foldl (upsert fst) ∅ three_items) ∅).
  - reflexivity.
  - reflexivity.
  - reflexivity.
  - reflexivity.
  - apply upsert_all_well_keyed. intros k item. by rewrite lookup_empty.
  - simpl. lia.
  - simpl. lia.
  - lia.
  - apply three_items_size.
Defined.

(** X10. When the destination table does not exist (and the identity
    checks and the lookup of the source table are passed), the run ends
    with [exit(1)] after the lookup of the destination: the source table
    has not been read, nothing has been written, the tables are as they
    were, and the last line printed names the destination table. *)
Theorem missing_destination_table `{Countable Key} {Item : Type} (key_of : Item → Key)
    (svc : Service) (fuel : nat)
    (src_table_name src_profile src_region
     dest_table_name dest_profile dest_region : string)
    (st : State (gmap TableId (gmap Key Item)) Item Key) (S : gmap Key Item) :
  validation_returns (caller_identity svc src_profile src_region) = true →
  validation_returns (caller_identity svc dest_profile dest_region) = true →
  remote st !! ((src_table_name, src_profile, src_region) : TableId) = Some S →
  remote st !! ((dest_table_name, dest_profile, dest_region) : TableId) = None →
  ∃ st',
    run fuel (dynamodb key_of svc) src_table_name src_profile src_region
        dest_table_name dest_profile dest_region st = (SysExit 1, st')
    ∧ remote st' = remote st
    ∧ requests st'
      = requests st ++ [GetCallerIdentity src_profile src_region;
                        GetCallerIdentity dest_profile dest_region;
                        Load src_table_name; Load dest_table_name]
    ∧ last (console st')
      = Some (Echo ("ERROR: count not find the table named '"
                    +:+ dest_table_name +:+ "'")).
Proof.
  intros Hvsrc Hvdest HS HD. unfold run.
  do 6 (rewrite bind_cases, print_advance).
  rewrite bind_cases.
  match goal with
  | |- context [validate_aws_credentials _ src_profile src_region ?s] =>
      assert (remote s = remote st) as Hrem0 by done;
      assert (requests s = requests st) as Hreq0 by (simpl; by rewrite !app_nil_r);
      destruct (validate_aws_credentials (dynamodb key_of svc) src_profile src_region s)
        as [x1 st1] eqn:Hv1
  end.
  apply validate_store in Hv1 as (Hrem1 & Hreq1 & Hx1).
  rewrite Hvsrc in Hx1. destruct Hx1 as [[a ->] _].
  rewrite Hrem0 in Hrem1. rewrite Hreq0 in Hreq1.
  rewrite bind_cases.
  destruct (validate_aws_credentials (dynamodb key_of svc) dest_profile dest_region st1)
    as [x2 st2] eqn:Hv2.
  apply validate_store in Hv2 as (Hrem2 & Hreq2 & Hx2).
  rewrite Hvdest in Hx2. destruct Hx2 as [[a' ->] _].
  rewrite Hrem1 in Hrem2. rewrite Hreq1 in Hreq2.
  rewrite bind_cases, (get_dynamodb_table_found _ _ _ _ _ _ S) by (by rewrite Hrem2).
  rewrite bind_cases, get_dynamodb_table_missing by (simpl; by rewrite Hrem2).
  eexists. split; [reflexivity|]. simpl.
  split_and!; [done| |apply last_snoc].
  rewrite Hreq2, <- !app_assoc. done.
Qed.

Lemma missing_destination_table_witness :
  ∃ st',
    run 3 (dynamodb fst test_service) "TEST_SOURCE" "default" "us-east-1"
        "FAKE_TABLE_NAME" "default" "us-east-1" (start_with test_tables) = (SysExit 1, st')
    ∧ remote st' = test_tables
    ∧ requests st'
      = [] ++ [GetCallerIdentity "default" "us-east-1";
               GetCallerIdentity "default" "us-east-1";
               Load "TEST_SOURCE"; Load "FAKE_TABLE_NAME"]
    ∧ last (console st')
      = Some (Echo ("ERROR: count not find the table named '"
                    +:+ "FAKE_TABLE_NAME" +:+ "'")).
Proof.
  apply (missing_destination_table fst test_service 3
           "TEST_SOURCE" "default" "us-east-1" "FAKE_TABLE_NAME" "default" "us-east-1"
           (start_with test_tables) (foldl (upsert fst) ∅ three_items)).
  - reflexivity.
  - reflexivity.
  - reflexivity.
  - reflexivity.
Defined.

(** X11. The identity of the source is checked first, and a check that
    does not return stops the run there: whatever the answer of STS is
    (expired or invalid credentials, a region without an endpoint, any
    other exception), the run ends with the status 1 and has sent that one
    request only; the destination credentials are not checked and no table
    is looked up, read or written. *)
Theorem run_stops_at_first_check {W Item Cursor} (fuel : nat) (boto3 : Boto3 W Item Cursor)
    (src_table_name src_profile src_region
     dest_table_name dest_profile dest_region : string)
    (st : State W Item Cursor) (r : Result string) (w : W) :
  get_caller_identity boto3 src_profile src_region (remote st) = (r, w) →
  validation_returns r = false →
  ∃ o st',
    run fuel boto3 src_table_name src_profile src_region
        dest_table_name dest_profile dest_region st = (o, st')
    ∧ exit_status o = Some 1%Z
    ∧ remote st' = w
    ∧ requests st' = requests st ++ [GetCallerIdentity src_profile src_region].
Proof.
  intros Hsts Hr. unfold run.
  do 6 (rewrite bind_cases, print_advance).
  rewrite bind_cases. unfold validate_aws_credentials at 1, call.
  simpl remote. rewrite Hsts.
  destruct r as [a|e]; [done|].
  destruct e as [code| | |]; simpl in Hr; repeat case_bool_decide; try done;
    simpl; eexists _, _; (split; [reflexivity|]); simpl; by rewrite ?app_nil_r.
Qed.

Lemma run_stops_at_first_check_witness :
  ∃ o st',
    run 3 (dynamodb fst
             {| caller_identity := λ _ _, Failure EndpointConnectionError;
                page_limit := 2; batch_limit := 2 |})
        "TEST_SOURCE" "default" "mars-north-1" "TEST_DESTINATION" "default" "us-east-1"
        (start_with test_tables) = (o, st')
    ∧ exit_status o = Some 1%Z
    ∧ remote st' = test_tables
    ∧ requests st' = [] ++ [GetCallerIdentity "default" "mars-north-1"].
Proof.
  apply (run_stops_at_first_check 3
           (dynamodb fst
             {| caller_identity := λ _ _, Failure EndpointConnectionError;
                page_limit := 2; batch_limit := 2 |})
           "TEST_SOURCE" "default" "mars-north-1" "TEST_DESTINATION" "default" "us-east-1"
           (start_with test_tables) (Failure EndpointConnectionError) test_tables).
  - reflexivity.
  - reflexivity.
Defined.

(** ** More on the profile list *)

Lemma readlines_nil s : readlines s = [] → s = EmptyString.
Proof.
  destruct s as [|c s]; [done|]. simpl.
  case_bool_decide; [done|]. by destruct (readlines s).
Qed.

Lemma readlines_app a b :
  readlines (a +:+ nl +:+ b) = readlines (a +:+ nl) ++ readlines b.
Proof.
  induction a as [|c a IH]; simpl.
  - done.
  - case_bool_decide; [by rewrite IH|].
    rewrite IH. destruct (readlines (a +:+ nl)) as [|l ls] eqn:E; [|done].
    apply readlines_nil in E. by destruct a.
Qed.

(** Opening in text mode is done part by part, when the first part ends
    with [\n]: that [\n] stays the end of a line, also after a [\r]. *)
Lemma open_text_parts a b :
  ∃ a', open_text (a +:+ nl) = a' +:+ nl
        ∧ open_text (a +:+ nl +:+ b) = a' +:+ nl +:+ open_text b.
Proof.
  induction a as [|c|c d s IH1 IH2] using string_ind2.
  - exists EmptyString. split; [done|].
    change (EmptyString +:+ nl +:+ b) with (String newline b).
    by rewrite open_text_other by apply newline_not_cr.
  - destruct (decide (c = carriage_return)) as [->|Hcr].
    + exists EmptyString. split; [done|].
      change (String carriage_return EmptyString +:+ nl +:+ b)
        with (String carriage_return (String newline b)).
      by rewrite open_text_cr_lf.
    + exists (String c EmptyString).
      change (String c EmptyString +:+ nl) with (String c nl).
      change (String c EmptyString +:+ nl +:+ b) with (String c (String newline b)).
      rewrite !(open_text_other c) by done.
      by rewrite (open_text_other newline b) by apply newline_not_cr.
  - destruct IH1 as (a1 & E1 & F1). destruct IH2 as (a2 & E2 & F2).
    change (String c (String d s) +:+ nl) with (String c (String d (s +:+ nl))).
    change (String c (String d s) +:+ nl +:+ b)
      with (String c (String d (s +:+ nl +:+ b))).
    change (String d s +:+ nl) with (String d (s +:+ nl)) in E2.
    change (String d s +:+ nl +:+ b) with (String d (s +:+ nl +:+ b)) in F2.
    destruct (decide (c = carriage_return)) as [->|Hcr].
    + destruct (decide (d = newline)) as [->|Hd].
      * exists (String newline a1). by rewrite !open_text_cr_lf, E1, F1.
      * exists (String newline a2). by rewrite !open_text_cr, E2, F2.
    + exists (String c a2). by rewrite !(open_text_other c), E2, F2.
Qed.

(** X12. The names that [get_profile_names] finds in a credentials file
    made of two parts, the first of which ends with [\n], are the names
    found in the first part followed by the names found in the second,
    whatever line ends the parts use otherwise: the list follows the file,
    and a profile that comes twice is listed twice. *)
Theorem profile_names_of_parts (a b : string) :
  profile_names_of_file (a +:+ nl +:+ b)
  = profile_names_of_file (a +:+ nl) ++ profile_names_of_file b.
Proof.
  unfold profile_names_of_file, profile_names_of_lines.
  destruct (open_text_parts a b) as (a' & -> & ->).
  by rewrite readlines_app, omap_app.
Qed.
